(** * Date watermark tool: a model of [main.py] and its specification

    The program stamps a date on images.  It has four functions:
    [get_exif_datetime] (the Metadata Reader), [get_position] (the Position
    Resolver), [add_watermark] (the Watermark Renderer) and [main] (the
    Batch Driver).  Each of them is embedded below under its own name.

    Conventions of the embedding.
    - A Python [int] is a [Z]; [//] is [Z.div] (both round towards minus
      infinity for the positive divisor used here).
    - A Python [str] is a [string] holding its UTF-8 bytes.  A file name
      that is not UTF-8 reaches the program with its odd bytes kept as lone
      surrogates; here it is the [string] of the bytes of the name, so it
      is a [string] that is not UTF-8.
    - Code that prints, touches the file system or raises runs in the monad
      [M]: a function of the [world] that returns a value or the exception
      raised, and the world after it.
    - [print] writes to a standard output that may refuse a line, and then
      [print] raises: what the stream refuses is the [Stream] the program
      runs with.
    - [os.path] is [posixpath]: [/] separates components and file names are
      compared byte for byte.
    - The file system has no links: a path names the node stored under
      exactly that string, so two paths name two nodes. *)

From Stdlib Require Import ZArith String Ascii List Bool Lia DecimalString.
From stdpp Require Import base option gmap strings list.
Import ListNotations.

Local Open Scope Z_scope.
Local Open Scope string_scope.

(** ** Position Resolver *)

Definition padding : Z := 20.

Definition get_position (img_width img_height text_width text_height : Z)
    (position : string) : Z * Z :=
  if String.eqb position "top-left" then
    (padding, padding)
  else if String.eqb position "top-right" then
    (img_width - text_width - padding, padding)
  else if String.eqb position "bottom-left" then
    (padding, img_height - text_height - padding)
  else if String.eqb position "bottom-right" then
    (img_width - text_width - padding, img_height - text_height - padding)
  else if String.eqb position "center" then
    ((img_width - text_width) / 2, (img_height - text_height) / 2)
  else if String.eqb position "top-center" then
    ((img_width - text_width) / 2, padding)
  else if String.eqb position "bottom-center" then
    ((img_width - text_width) / 2, img_height - text_height - padding)
  else
    (img_width - text_width - padding, img_height - text_height - padding).

(** The values [--position] accepts, in the order of the [choices] list. *)
Definition anchors : list string :=
  ["top-left"; "top-center"; "top-right"; "center";
   "bottom-left"; "bottom-center"; "bottom-right"].

(** [(x, y)] lies in the rectangle in which the text fits on the image. *)
Definition within (W H tw th : Z) (p : Z * Z) : Prop :=
  0 <= fst p <= W - tw /\ 0 <= snd p <= H - th.

(** ** Strings and paths

    The operations of [str] and [posixpath] that the program calls. *)

Definition str_int (n : Z) : string := NilZero.string_of_int (Z.to_int n).

Fixpoint repeat_str (s : string) (n : nat) : string :=
  match n with
  | O => ""
  | S n' => s ++ repeat_str s n'
  end.

Definition upper_char (c : ascii) : ascii :=
  let n := nat_of_ascii c in
  if ((97 <=? n) && (n <=? 122))%nat then ascii_of_nat (n - 32) else c.

(** [str.upper], on the ASCII letters the patterns are made of. *)
Fixpoint upper (s : string) : string :=
  match s with
  | "" => ""
  | String c s' => String (upper_char c) (upper s')
  end.

Fixpoint endswith (s suffix : string) : bool :=
  String.eqb s suffix ||
  match s with
  | "" => false
  | String _ s' => endswith s' suffix
  end.

Definition is_sep (c : ascii) : bool := Ascii.eqb c "/".

Definition is_empty (s : string) : bool :=
  match s with "" => true | _ => false end.

(** [(p[:i], p[i:])] for [i = p.rfind('/') + 1]. *)
Fixpoint rsplit_sep (p : string) : string * string :=
  match p with
  | "" => ("", "")
  | String c p' =>
      let (h, t) := rsplit_sep p' in
      if is_empty h then (if is_sep c then (String c "", p') else ("", p))
      else (String c h, t)
  end.

Fixpoint all_sep (s : string) : bool :=
  match s with
  | "" => true
  | String c s' => is_sep c && all_sep s'
  end.

(** [s.rstrip('/')] *)
Fixpoint rstrip_sep (s : string) : string :=
  match s with
  | "" => ""
  | String c s' =>
      let r := rstrip_sep s' in
      if is_empty r && is_sep c then "" else String c r
  end.

Definition split (p : string) : string * string :=
  let (head, tail) := rsplit_sep p in
  if negb (is_empty head) && negb (all_sep head)
  then (rstrip_sep head, tail) else (head, tail).

Definition basename (p : string) : string := snd (rsplit_sep p).

Definition dirname (p : string) : string := fst (split p).

(** [os.path.join(a, b)] *)
Definition join (a b : string) : string :=
  if String.prefix "/" b then b
  else if is_empty a || endswith a "/" then a ++ b
  else a ++ "/" ++ b.

(** [glob.has_magic]: one of [*], [?], [[] occurs. *)
Fixpoint has_magic (s : string) : bool :=
  match s with
  | "" => false
  | String c s' =>
      Ascii.eqb c "*" || Ascii.eqb c "?" || Ascii.eqb c "[" || has_magic s'
  end.

(** [glob._ishidden] *)
Definition ishidden (name : string) : bool := String.prefix "." name.

(** [fnmatch] for a pattern that is one [*] followed by characters that
    stand for themselves, which is the shape of every pattern [main] builds:
    the name has to end with what follows the star.  No case folding takes
    place under [posixpath]. *)
Definition fnmatch (name pat : string) : bool :=
  match pat with
  | String "*" lit => endswith name lit
  | _ => String.eqb name pat
  end.

(** *** UTF-8

    What the codec does with the bytes of a [str]. *)

Definition ord (c : ascii) : Z := Z.of_nat (nat_of_ascii c).

Definition between (lo hi : Z) (c : ascii) : bool :=
  (lo <=? ord c)%Z && (ord c <=? hi)%Z.

(** The number of bytes of the UTF-8 sequence [s] starts with, 0 when it
    starts with none. *)
Definition utf8_prefix (s : string) : nat :=
  match s with
  | String a (String b (String c (String d _))) =>
      if between 0 127 a then 1
      else if between 194 223 a && between 128 191 b then 2
      else if (between 224 224 a && between 160 191 b ||
               between 225 236 a && between 128 191 b ||
               between 237 237 a && between 128 159 b ||
               between 238 239 a && between 128 191 b) && between 128 191 c then 3
      else if (between 240 240 a && between 144 191 b ||
               between 241 243 a && between 128 191 b ||
               between 244 244 a && between 128 143 b) &&
              between 128 191 c && between 128 191 d then 4
      else 0
  | String a (String b (String c "")) =>
      if between 0 127 a then 1
      else if between 194 223 a && between 128 191 b then 2
      else if (between 224 224 a && between 160 191 b ||
               between 225 236 a && between 128 191 b ||
               between 237 237 a && between 128 159 b ||
               between 238 239 a && between 128 191 b) && between 128 191 c then 3
      else 0
  | String a (String b "") =>
      if between 0 127 a then 1
      else if between 194 223 a && between 128 191 b then 2
      else 0
  | String a "" => if between 0 127 a then 1 else 0
  | "" => 0
  end%nat.

(** The bytes of [s] that are part of no UTF-8 sequence, each with the
    index of the lone surrogate that stands for it in the [str]; [skip]
    bytes at the front belong to a sequence already counted, and [index]
    characters came before. *)
Fixpoint undecodable (s : string) (skip : nat) (index : Z) : list (Z * ascii) :=
  match s with
  | "" => []
  | String c rest =>
      match skip with
      | S k => undecodable rest k index
      | O =>
          match utf8_prefix s with
          | O => (index, c) :: undecodable rest 0 (index + 1)
          | S k => undecodable rest k (index + 1)
          end
      end
  end.

(** How many of the next lone surrogates follow the one at [i] directly. *)
Fixpoint run_length (i : Z) (more : list (Z * ascii)) : nat :=
  match more with
  | (j, _) :: more' => if (j =? i + 1)%Z then S (run_length j more') else O
  | [] => O
  end.

Definition hex_digit (n : Z) : string :=
  String (ascii_of_nat (Z.to_nat (if (n <? 10)%Z then 48 + n else 87 + n))) "".

(** The two hexadecimal digits of a byte. *)
Definition hex2 (c : ascii) : string :=
  hex_digit (ord c / 16) ++ hex_digit (ord c mod 16).

(** ** Dates *)

Record datetime := mkdatetime {
  year : Z; month : Z; day : Z; hour : Z; minute : Z; second : Z
}.

Definition is_leap (y : Z) : bool :=
  ((y mod 4 =? 0) && (negb (y mod 100 =? 0) || (y mod 400 =? 0)))%Z.

Definition days_in_month (y m : Z) : Z :=
  if (m =? 2)%Z then (if is_leap y then 29 else 28)
  else if ((m =? 4) || (m =? 6) || (m =? 9) || (m =? 11))%Z then 30
  else 31.

(** [strftime] with two-digit fields zero padded. *)
Definition pad2 (n : Z) : string :=
  if (n <? 10)%Z then "0" ++ str_int n else str_int n.

(** [dt.strftime("%Y年%m月%d日")] *)
Definition strftime_ymd (dt : datetime) : string :=
  str_int (year dt) ++ "年" ++ pad2 (month dt) ++ "月" ++ pad2 (day dt) ++ "日".

(** ** Exceptions *)

(** A raised exception: its class and [str(e)]. *)
Record pyerror := mkerror { cls : string; msg : string }.

Definition ValueError (m : string) : pyerror := mkerror "ValueError" m.
Definition TypeError (m : string) : pyerror := mkerror "TypeError" m.

(** ** [datetime.strptime(value, '%Y:%m:%d %H:%M:%S')]

    [strptime] turns the format into the regular expression

      [(\d\d\d\d):(1[0-2]|0[1-9]|[1-9]):(3[0-1]|[1-2]\d|0[1-9]|[1-9]| [1-9])\s+(2[0-3]|[0-1]\d|\d):([0-5]\d|\d):(6[0-1]|[0-5]\d|\d)]

    matches it at the start of the value, refuses text left over after the
    match and then builds the date, which checks the day against the month
    and the second against 59.  A [parser] lists the ways to match a prefix,
    in the order a backtracking matcher tries them.  Characters outside
    ASCII count neither as digits nor as white space. *)

Definition parser (A : Type) : Type := string -> list (A * string).

Definition pret {A} (a : A) : parser A := fun s => [(a, s)].

Definition pbind {A B} (p : parser A) (f : A -> parser B) : parser B :=
  fun s => flat_map (fun ar => f (fst ar) (snd ar)) (p s).

Definition palt {A} (ps : list (parser A)) : parser A :=
  fun s => flat_map (fun p => p s) ps.

Definition lit (c : ascii) : parser unit :=
  fun s =>
    match s with
    | String c' s' => if Ascii.eqb c c' then [(tt, s')] else []
    | "" => []
    end.

(** One digit between [lo] and [hi]. *)
Definition dig (lo hi : Z) : parser Z :=
  fun s =>
    match s with
    | String c s' =>
        let v := Z.of_nat (nat_of_ascii c) - 48 in
        if ((lo <=? v) && (v <=? hi))%Z then [(v, s')] else []
    | "" => []
    end.

Definition dig2 (lo1 hi1 lo2 hi2 : Z) : parser Z :=
  pbind (dig lo1 hi1) (fun a => pbind (dig lo2 hi2) (fun b => pret (10 * a + b))).

(** What [\s] matches among the ASCII characters. *)
Definition is_space (c : ascii) : bool :=
  let n := nat_of_ascii c in
  (((9 <=? n) && (n <=? 13)) || ((28 <=? n) && (n <=? 32)))%nat.

(** [\s+]: as many white-space characters as there are, then fewer. *)
Fixpoint spaces_rests (s : string) : list string :=
  match s with
  | String c s' => if is_space c then (spaces_rests s' ++ [s'])%list else []
  | "" => []
  end.

Definition spaces : parser unit := fun s => map (fun r => (tt, r)) (spaces_rests s).

Definition re_Y : parser Z :=
  pbind (dig2 0 9 0 9) (fun a => pbind (dig2 0 9 0 9) (fun b => pret (100 * a + b))).
Definition re_m : parser Z := palt [dig2 1 1 0 2; dig2 0 0 1 9; dig 1 9].
Definition re_d : parser Z :=
  palt [dig2 3 3 0 1; dig2 1 2 0 9; dig2 0 0 1 9; dig 1 9;
        pbind (lit " ") (fun _ => dig 1 9)].
Definition re_H : parser Z := palt [dig2 2 2 0 3; dig2 0 1 0 9; dig 0 9].
Definition re_M : parser Z := palt [dig2 0 5 0 9; dig 0 9].
Definition re_S : parser Z := palt [dig2 6 6 0 1; dig2 0 5 0 9; dig 0 9].

Definition format_regex : parser datetime :=
  pbind re_Y (fun Y => pbind (lit ":") (fun _ =>
  pbind re_m (fun m => pbind (lit ":") (fun _ =>
  pbind re_d (fun d => pbind spaces (fun _ =>
  pbind re_H (fun H => pbind (lit ":") (fun _ =>
  pbind re_M (fun M => pbind (lit ":") (fun _ =>
  pbind re_S (fun S => pret (mkdatetime Y m d H M S)))))))))))).

Section Strptime.
(** [repr] of a [str], which the error messages quote the value with. *)
Variable repr : string -> string.

Definition strptime (value : string) : pyerror + datetime :=
  match format_regex value with
  | [] =>
      inl (ValueError ("time data " ++ repr value ++
                       " does not match format '%Y:%m:%d %H:%M:%S'"))
  | (dt, rest) :: _ =>
      if negb (is_empty rest) then
        inl (ValueError ("unconverted data remains: " ++ rest))
      else if (year dt =? 0)%Z then
        inl (ValueError "year 0 is out of range")
      else if (days_in_month (year dt) (month dt) <? day dt)%Z then
        inl (ValueError "day is out of range for month")
      else if (59 <? second dt)%Z then
        inl (ValueError "second must be in 0..59")
      else inr dt
  end.
End Strptime.

(** ** Images, fonts and the file system *)

Inductive font :=
  | TrueType (file : string) (size : Z)
  | DefaultFont.

(** One [draw.text(xy, text, font=, fill=)]. *)
Record draw_op := DrawText {
  at_xy : Z * Z; text_drawn : string; with_font : font; fill : string
}.

(** A value stored under an EXIF tag. *)
Inductive exif_value :=
  | EStr (s : string)
  | EBytes (b : string)
  | EInt (n : Z).

(** What [img._getexif()] does: raise (the decoder of the format has no
    such method), return [None], or return the dict of tags, listed in the
    order [items()] iterates. *)
Inductive exif_block :=
  | ExifRaises (e : pyerror)
  | ExifNone
  | ExifDict (items : list (Z * exif_value)).

(** An image in memory: its mode, its size and the texts drawn on it,
    oldest first. *)
Record image := mkimage {
  mode : string; width : Z; height : Z; canvas : list draw_op
}.

(** An image file as [Image.open] returns it: the picture and its
    metadata. *)
Record image_file := mkfile { picture : image; exif : exif_block }.

(** What a path names: a directory with the names [scandir] lists, or a
    file, which [Image.open] decodes or rejects with an exception. *)
Inductive node :=
  | Dir (names : list string)
  | File (content : pyerror + image_file).

(** The world the program runs in.  A path names the node stored under
    exactly that string, and no node is stored under the empty path; there
    are no symbolic or hard links, so writing under one path changes what
    no other path names. *)
Record world := mkworld {
  fs : gmap string node;
  now : datetime;
  stdout : list string
}.

Definition lookup_path (w : world) (p : string) : option node :=
  if is_empty p then None else fs w !! p.

(** ** The parts of the libraries taken as given

    [TAGS] is [ExifTags.TAGS]; [repr] is [repr] on [str];
    [truetype_fault], [textbbox], [text_fault], [convert_fault] and
    [save_fault] say when and how [ImageFont.truetype], [draw.textbbox],
    [draw.text], [img.convert] and [img.save] raise; [makedirs_fault] says
    when and how [os.makedirs] raises for a reason the world does not show
    (no permission, a name that is too long, a full disk); [written_exif]
    is the metadata a file written by [img.save] is read back with;
    [glob_dirs] is what [glob] does with a directory part that itself
    contains [*], [?] or [[]: the directories it expands to. *)
Class Runtime := {
  TAGS : Z -> option string;
  repr : string -> string;
  truetype_fault : string -> Z -> option pyerror;
  textbbox : font -> string -> pyerror + (Z * Z * Z * Z);
  text_fault : font -> string -> string -> option pyerror;
  convert_fault : string -> string -> option pyerror;
  save_fault : world -> string -> image -> option pyerror;
  makedirs_fault : world -> string -> option pyerror;
  written_exif : string -> image -> exif_block;
  glob_dirs : world -> string -> list string
}.

(** Standard output: [print_fault w line] is the exception [print(line)]
    raises in the world [w], if it raises.  A stream that encodes strictly
    raises [UnicodeEncodeError] for a line with a lone surrogate, which is
    what a file name that is not UTF-8 puts into the lines that show it; a
    closed or full stream raises [OSError]. *)
Class Stream := {
  print_fault : world -> string -> option pyerror
}.

(** The stream that takes every line. *)
Definition accepting : Stream := {| print_fault := fun _ _ => None |}.

(** ** The monad of effects *)

Definition M (A : Type) : Type := world -> (pyerror + A) * world.

Definition ret {A} (a : A) : M A := fun w => (inr a, w).

Definition bind {A B} (c : M A) (k : A -> M B) : M B :=
  fun w =>
    match c w with
    | (inr a, w') => k a w'
    | (inl e, w') => (inl e, w')
    end.

Definition raise {A} (e : pyerror) : M A := fun w => (inl e, w).

(** [try: c  except Exception as e: handler e] (and the bare [except:]) *)
Definition try_except {A} (c : M A) (handler : pyerror -> M A) : M A :=
  fun w =>
    match c w with
    | (inr a, w') => (inr a, w')
    | (inl e, w') => handler e w'
    end.

Definition get_world : M world := fun w => (inr w, w).

(** [print(line)]: the line is written, or the stream refuses it and
    nothing is written. *)
Definition print {OUT : Stream} (line : string) : M unit :=
  fun w =>
    match print_fault w line with
    | Some e => (inl e, w)
    | None => (inr tt, mkworld (fs w) (now w) (stdout w ++ [line])%list)
    end.

Definition lift {A} (r : pyerror + A) : M A :=
  match r with inl e => raise e | inr a => ret a end.

Definition fault (o : option pyerror) : M unit :=
  match o with Some e => raise e | None => ret tt end.

Declare Scope py_scope.
Delimit Scope py_scope with py.
Notation "'let*' x ':=' c 'in' k" := (bind c (fun x => k))
  (at level 10, x name, c at level 100, k at level 200) : py_scope.
Notation "c ;; k" := (bind c (fun _ => k))
  (at level 100, k at level 200, right associativity) : py_scope.
Local Open Scope py_scope.

(** The exit status of the process: the value [main] ends with, or 1 when
    an exception reaches the top level. *)
Definition exit_status (r : (pyerror + Z) * world) : Z :=
  match fst r with inr code => code | inl _ => 1 end.

Section Program.
Context {RT : Runtime} {OUT : Stream}.

(** *** File system calls *)

Definition exists_ (p : string) : M bool :=
  let* w := get_world in ret (bool_decide (is_Some (lookup_path w p))).

Definition isfile (p : string) : M bool :=
  let* w := get_world in
  ret (match lookup_path w p with Some (File _) => true | _ => false end).

(** [Image.open(path)] *)
Definition Image_open (p : string) : M image_file :=
  let* w := get_world in
  match lookup_path w p with
  | Some (File content) => lift content
  | Some (Dir _) =>
      raise (mkerror "IsADirectoryError" ("[Errno 21] Is a directory: " ++ repr p))
  | None =>
      raise (mkerror "FileNotFoundError"
               ("[Errno 2] No such file or directory: " ++ repr p))
  end.

(** List [p] in its directory and store [n] under it. *)
Definition store (p : string) (n : node) : M unit :=
  fun w =>
    let (parent, name) := split p in
    let listed :=
      match lookup_path w parent with
      | Some (Dir names) =>
          if bool_decide (name ∈ names) then fs w
          else <[parent := Dir (names ++ [name])]> (fs w)
      | _ => fs w
      end in
    (inr tt, mkworld (<[p := n]> listed) (now w) (stdout w)).

(** [os.makedirs(p, exist_ok=True)], called on a path whose parent is
    there: when the system does not refuse, an existing directory is left
    alone, a missing one is made, and a file under that name is an error. *)
Definition makedirs (p : string) : M unit :=
  let* w := get_world in
  fault (makedirs_fault w p) ;;
  match lookup_path w p with
  | Some (Dir _) => ret tt
  | Some (File _) =>
      raise (mkerror "FileExistsError" ("[Errno 17] File exists: " ++ repr p))
  | None => store p (Dir [])
  end.

(** [glob._glob1]: the names in [dirname] that are not hidden and match. *)
Definition glob1 (w : world) (dirname pattern : string) : list string :=
  let names :=
    match lookup_path w dirname with Some (Dir names) => names | _ => [] end in
  List.filter (fun name => fnmatch name pattern)
    (List.filter (fun name => negb (ishidden name)) names).

(** [glob.glob(pathname)] for a [pathname] with a directory part and a
    last component that has a [*]. *)
Definition glob (pathname : string) : M (list string) :=
  let* w := get_world in
  let (dirname, basename) := split pathname in
  let dirs := if has_magic dirname then glob_dirs w dirname else [dirname] in
  ret (flat_map (fun d => map (join d) (glob1 w d basename)) dirs).

(** *** Metadata Reader *)

(** [if value:] *)
Definition truthy (v : exif_value) : bool :=
  match v with
  | EStr s => negb (is_empty s)
  | EBytes b => negb (is_empty b)
  | EInt n => negb (n =? 0)%Z
  end.

(** [datetime.strptime(value, '%Y:%m:%d %H:%M:%S')] on any tag value. *)
Definition strptime_value (v : exif_value) : pyerror + datetime :=
  match v with
  | EStr s => strptime repr s
  | EBytes _ => inl (TypeError "strptime() argument 1 must be str, not bytes")
  | EInt _ => inl (TypeError "strptime() argument 1 must be str, not int")
  end.

(** [ExifTags.TAGS.get(tag_id, tag_id) == 'DateTimeOriginal']: a tag
    without a name stays a number, which equals no string. *)
Definition is_DateTimeOriginal (tag_id : Z) : bool :=
  match TAGS tag_id with
  | Some tag => String.eqb tag "DateTimeOriginal"
  | None => false
  end.

(** [f"{dt.year}\\{dt.month}\\{dt.day}"] *)
Definition format_date (dt : datetime) : string :=
  str_int (year dt) ++ "\" ++ str_int (month dt) ++ "\" ++ str_int (day dt).

(** The [for tag_id, value in exif_data.items()] loop. *)
Fixpoint scan_tags (items : list (Z * exif_value)) : M (option string) :=
  match items with
  | [] => ret None
  | (tag_id, value) :: rest =>
      if is_DateTimeOriginal tag_id then
        if truthy value then
          let* dt := lift (strptime_value value) in
          ret (Some (format_date dt))
        else scan_tags rest
      else scan_tags rest
  end.

Definition getexif (img : image_file) : M (option (list (Z * exif_value))) :=
  match exif img with
  | ExifRaises e => raise e
  | ExifNone => ret None
  | ExifDict items => ret (Some items)
  end.

Definition exif_failed (image_path : string) (e : pyerror) : string :=
  "读取 " ++ image_path ++ " 的EXIF信息失败: " ++ msg e.

Definition get_exif_datetime (image_path : string) : M (option string) :=
  try_except
    (let* img := Image_open image_path in
     let* exif_data := getexif img in
     match exif_data with
     | Some (item :: items) => scan_tags (item :: items)
     | _ => ret None
     end)
    (fun e => print (exif_failed image_path e) ;; ret None).

(** *** Watermark Renderer *)

Definition convert (m : string) (img : image) : M image :=
  fault (convert_fault (mode img) m) ;;
  ret (mkimage m (width img) (height img) (canvas img)).

Definition truetype (file : string) (size : Z) : M font :=
  fault (truetype_fault file size) ;; ret (TrueType file size).

(** [draw.text(xy, text, font=font, fill=fill)] on the image [draw] was
    made for. *)
Definition draw_text (img : image) (xy : Z * Z) (text : string) (f : font)
    (fill : string) : M image :=
  fault (text_fault f text fill) ;;
  ret (mkimage (mode img) (width img) (height img)
         (canvas img ++ [DrawText xy text f fill])).

(** [img.save(output_path, quality=95)] *)
Definition save (img : image) (output_path : string) : M unit :=
  let* w := get_world in
  fault (save_fault w output_path img) ;;
  store output_path (File (inr (mkfile img (written_exif output_path img)))).

(** Lines 62 to 65: the text to draw. *)
Definition watermark_text_of (image_path : string) : M string :=
  let* watermark_text := get_exif_datetime image_path in
  match watermark_text with
  | Some (String c t) => ret (String c t)
  | _ =>
      let* w := get_world in
      let watermark_text := strftime_ymd (now w) in
      print ("水印: " ++ watermark_text) ;;
      ret watermark_text
  end.

(** Lines 68 to 78: the chain of fonts. *)
Definition load_font (font_size : Z) : M font :=
  try_except (truetype "arial.ttf" font_size) (fun _ =>
  try_except (truetype "/System/Library/Fonts/Arial.ttf" font_size) (fun _ =>
  try_except (truetype "/usr/share/fonts/truetype/dejavu/DejaVuSans.ttf" font_size)
    (fun _ =>
       let font := DefaultFont in
       print "使用默认字体" ;;
       ret font))).

Definition shadow_color_of (color : string) : string :=
  if String.eqb color "white" then "black" else "black".

(** Lines 55 and 56: [if img.mode != 'RGBA': img = img.convert('RGBA')] *)
Definition to_rgba (img : image) : M image :=
  if negb (String.eqb (mode img) "RGBA") then convert "RGBA" img else ret img.

(** Lines 96 and 97: [if img.mode == 'RGBA': img = img.convert('RGB')] *)
Definition flatten (img : image) : M image :=
  if String.eqb (mode img) "RGBA" then convert "RGB" img else ret img.

(** [bbox[2] - bbox[0]] and [bbox[3] - bbox[1]] *)
Definition text_size (bbox : Z * Z * Z * Z) : Z * Z :=
  let '(b0, b1, b2, b3) := bbox in (b2 - b0, b3 - b1).

(** The body of the [try] in [add_watermark]. *)
Definition render (image_path output_path : string) (font_size : Z)
    (color position : string) : M unit :=
  let* opened := Image_open image_path in
  let img := picture opened in
  let* img := to_rgba img in
  let* watermark_text := watermark_text_of image_path in
  let* font := load_font font_size in
  let* bbox := lift (textbbox font watermark_text) in
  let (text_width, text_height) := text_size bbox in
  let (x, y) :=
    get_position (width img) (height img) text_width text_height position in
  let shadow_color := shadow_color_of color in
  let* img := draw_text img (x + 2, y + 2) watermark_text font shadow_color in
  let* img := draw_text img (x, y) watermark_text font color in
  let* img := flatten img in
  save img output_path ;;
  print ("已保存: " ++ output_path).

Definition add_watermark (image_path output_path : string) (font_size : Z)
    (color position : string) : M unit :=
  try_except (render image_path output_path font_size color position)
    (fun e => print ("处理图片 " ++ image_path ++ " 时出错: " ++ msg e)).

(** *** Batch Driver *)

(** The parsed command line. *)
Record args := mkargs {
  image_path : string; font_size : Z; color : string; position : string
}.

Definition image_extensions : list string :=
  ["*.jpg"; "*.jpeg"; "*.png"; "*.bmp"; "*.tiff"; "*.webp"].

(** The [for ext in image_extensions] loop. *)
Fixpoint collect (input_dir : string) (exts : list string) : M (list string) :=
  match exts with
  | [] => ret []
  | ext :: rest =>
      let* as_written := glob (join input_dir ext) in
      let* upper_cased := glob (join input_dir (upper ext)) in
      let* more := collect input_dir rest in
      ret (as_written ++ upper_cased ++ more)%list
  end.

(** Lines 124 to 133: the working set and the input directory. *)
Definition resolve_inputs (path : string) : M (list string * string) :=
  let* single := isfile path in
  if single then
    let image_files := [path] in
    let input_dir := if is_empty (dirname path) then "." else dirname path in
    ret (image_files, input_dir)
  else
    let input_dir := path in
    let* image_files := collect input_dir image_extensions in
    ret (image_files, input_dir).

Definition str_len {A} (l : list A) : string := str_int (Z.of_nat (length l)).

(** The [for image_path in image_files] loop; [success_count] is the
    counter so far.  The counter goes up when [add_watermark] returns and
    stays when it raises. *)
Fixpoint process_images (a : args) (output_dir : string)
    (image_files : list string) (success_count : Z) : M Z :=
  match image_files with
  | [] => ret success_count
  | image_path :: rest =>
      let* success_count :=
        try_except
          (let filename := basename image_path in
           let output_path := join output_dir filename in
           print ("处理: " ++ filename) ;;
           add_watermark image_path output_path (font_size a) (color a) (position a) ;;
           ret (success_count + 1))
          (fun e =>
             print ("处理 " ++ image_path ++ " 失败: " ++ msg e) ;;
             ret success_count) in
      process_images a output_dir rest success_count
  end.

Definition summary (success_count : Z) (total : nat) : string :=
  "处理完成！成功处理 " ++ str_int success_count ++ "/" ++
  str_int (Z.of_nat total) ++ " 张图片".

(** [main], after [parse_args]; the value is the exit status, 1 where the
    source calls [sys.exit(1)] and 0 at the end. *)
Definition main (a : args) : M Z :=
  let* found := exists_ (image_path a) in
  if negb found then
    print ("错误：路径 " ++ image_path a ++ " 不存在") ;;
    ret 1
  else
    let* inputs := resolve_inputs (image_path a) in
    let (image_files, input_dir) := inputs in
    if bool_decide (image_files = []) then
      print ("在 " ++ image_path a ++ " 中未找到图片文件") ;;
      ret 1
    else
      let output_dir := join input_dir (basename input_dir ++ "_watermark") in
      makedirs output_dir ;;
      print ("找到 " ++ str_len image_files ++ " 张图片") ;;
      print ("输出目录: " ++ output_dir) ;;
      print ("字体大小: " ++ str_int (font_size a) ++ ", 颜色: " ++ color a ++
             ", 位置: " ++ position a) ;;
      print (repeat_str "-" 50) ;;
      let* success_count := process_images a output_dir image_files 0 in
      print (repeat_str "-" 50) ;;
      print (summary success_count (length image_files)) ;;
      ret 0.
End Program.

(** ** The vocabulary of the specification *)

Section Vocabulary.
Context {RT : Runtime}.

(** The world after one more line on standard output. *)
Definition logged (line : string) (w : world) : world :=
  mkworld (fs w) (now w) (stdout w ++ [line]).

(** What there is to read for the Metadata Reader: the file cannot be
    opened, its metadata cannot be read, it has no metadata block, the
    block has no capture date, the date does not parse, or a capture
    date. *)
Inductive reading :=
  | CannotOpen (e : pyerror)
  | MetadataFails (e : pyerror)
  | NoMetadata
  | NoTag
  | ParseFails (e : pyerror)
  | Captured (dt : datetime).

(** The first non-empty value filed under the capture-date tag. *)
Definition capture_value (items : list (Z * exif_value)) : option exif_value :=
  snd <$> List.find (fun item => is_DateTimeOriginal (fst item) && truthy (snd item))
            items.

Definition reading_of (w : world) (image_path : string) : reading :=
  match fst (Image_open image_path w) with
  | inl e => CannotOpen e
  | inr opened =>
      match exif opened with
      | ExifRaises e => MetadataFails e
      | ExifNone => NoMetadata
      | ExifDict items =>
          match capture_value items with
          | None => NoTag
          | Some value =>
              match strptime_value value with
              | inl e => ParseFails e
              | inr dt => Captured dt
              end
          end
      end
  end.

(** [n] written with exactly [k] decimal digits. *)
Fixpoint fixed (k : nat) (n : Z) : string :=
  match k with
  | O => ""
  | S k' => fixed k' (n / 10) ++ String (ascii_of_nat (48 + Z.to_nat (n mod 10))) ""
  end.

(** The shape [YYYY s1 MM s2 DD s3]. *)
Definition ymd_padded (s1 s2 s3 : string) (dt : datetime) : string :=
  fixed 4 (year dt) ++ s1 ++ fixed 2 (month dt) ++ s2 ++ fixed 2 (day dt) ++ s3.

(** The working set, the input directory and the output directory of a
    run on [path]. *)
Definition working_set (w : world) (path : string) : list string :=
  match fst (resolve_inputs path w) with
  | inr (image_files, _) => image_files
  | inl _ => []
  end.

Definition input_dir_of (w : world) (path : string) : string :=
  match fst (resolve_inputs path w) with
  | inr (_, input_dir) => input_dir
  | inl _ => ""
  end.

Definition output_dir_of (w : world) (path : string) : string :=
  let input_dir := input_dir_of w path in
  join input_dir (basename input_dir ++ "_watermark").

Definition lower_char (c : ascii) : ascii :=
  let n := nat_of_ascii c in
  if ((65 <=? n) && (n <=? 90))%nat then ascii_of_nat (n + 32) else c.

Fixpoint lower (s : string) : string :=
  match s with
  | "" => ""
  | String c s' => String (lower_char c) (lower s')
  end.

(** A name that ends in one of the six extensions, whatever the case of
    its letters. *)
Definition has_image_extension (name : string) : bool :=
  existsb (fun ext => endswith (lower name) ext)
    [".jpg"; ".jpeg"; ".png"; ".bmp"; ".tiff"; ".webp"].
End Vocabulary.

(** ** A sample machine

    A run time and a few worlds to run the program on. *)
Module Sample.

Definition tags (tag_id : Z) : option string :=
  if (tag_id =? 36867)%Z then Some "DateTimeOriginal"
  else if (tag_id =? 36868)%Z then Some "DateTimeDigitized"
  else if (tag_id =? 306)%Z then Some "DateTime"
  else if (tag_id =? 271)%Z then Some "Make"
  else if (tag_id =? 272)%Z then Some "Model"
  else None.

(** Only the DejaVu font is installed; a text of [n] bytes in size [s]
    measures [n * s / 2] by [s]; every colour and conversion works, a save
    works when the name has an image extension, and [os.makedirs] fails
    only for what the world shows. *)
#[export] Instance runtime : Runtime := {|
  TAGS := tags;
  repr := fun s => "'" ++ s ++ "'";
  truetype_fault := fun file size =>
    if String.eqb file "/usr/share/fonts/truetype/dejavu/DejaVuSans.ttf"
    then None else Some (mkerror "OSError" "cannot open resource");
  textbbox := fun f text =>
    match f with
    | TrueType _ size => inr (0, 0, Z.of_nat (String.length text) * size / 2, size)
    | DefaultFont => inr (0, 0, Z.of_nat (String.length text) * 6, 11)
    end;
  text_fault := fun _ _ _ => None;
  convert_fault := fun _ _ => None;
  save_fault := fun _ output_path _ =>
    if has_image_extension output_path then None
    else Some (ValueError ("unknown file extension: " ++ output_path));
  makedirs_fault := fun _ _ => None;
  written_exif := fun _ _ => ExifNone;
  glob_dirs := fun _ _ => []
|}.

Definition photo (items : list (Z * exif_value)) : node :=
  File (inr (mkfile (mkimage "RGB" 4000 3000 []) (ExifDict items))).

Definition scan_without_exif : node :=
  File (inr (mkfile (mkimage "L" 800 600 []) ExifNone)).

Definition corrupt : node :=
  File (inl (mkerror "UnidentifiedImageError" "cannot identify image file")).

Definition today : datetime := mkdatetime 2026 11 4 9 30 0.

Definition world_of (l : list (string * node)) : world :=
  mkworld (list_to_map l) today [].

(** Five pictures in a directory, the third one corrupt. *)
Definition five : world :=
  world_of
    [("pics", Dir ["a.jpg"; "b.jpg"; "c.jpg"; "d.png"; "e.JPG"]);
     ("pics/a.jpg", photo [(271, EStr "ACME"); (36867, EStr "2023:10:15 12:30:45")]);
     ("pics/b.jpg", photo [(36867, EStr "2023:01:05 08:00:00")]);
     ("pics/c.jpg", corrupt);
     ("pics/d.png", scan_without_exif);
     ("pics/e.JPG", photo [(271, EStr "ACME"); (306, EStr "2024:03:09 10:00:00")])].

(** A directory with a picture whose extension is in mixed case. *)
Definition album : world :=
  world_of
    [("album", Dir ["a.jpg"; "photo.Jpg"; "notes.txt"]);
     ("album/a.jpg", photo [(36867, EStr "2023:10:15 12:30:45")]);
     ("album/photo.Jpg", photo [(36867, EStr "2022:07:01 18:45:10")]);
     ("album/notes.txt", corrupt)].

(** A directory in which a plain file has the name of the output
    directory. *)
Definition blocked : world :=
  world_of
    [("pics", Dir ["a.jpg"; "pics_watermark"]);
     ("pics/a.jpg", photo [(36867, EStr "2023:10:15 12:30:45")]);
     ("pics/pics_watermark", corrupt)].

(** A directory without pictures. *)
Definition barren : world :=
  world_of [("docs", Dir ["notes.txt"]); ("docs/notes.txt", corrupt)].

(** A picture stored under a name without an image extension. *)
Definition lone : world :=
  world_of
    [("shots", Dir ["frame.dat"]);
     ("shots/frame.dat", photo [(36867, EStr "2023:10:15 12:30:45")])].

Definition defaults (path : string) : args := mkargs path 36 "white" "bottom-right".

(** A picture in the current directory, given by its bare name. *)
Definition loose : world :=
  world_of [("a.jpg", photo [(36867, EStr "2023:10:15 12:30:45")])].

(** The world after [pics/a.jpg] was stamped in black at the centre. *)
Definition stamped : world :=
  snd (render (OUT := accepting) "pics/a.jpg" "pics/stamped.jpg" 36 "black" "center"
         five).

(** A standard output that encodes UTF-8 strictly: it refuses a line that
    has bytes which are not UTF-8, with the message of the codec. *)
Definition strict : Stream := {|
  print_fault := fun _ line =>
    match undecodable line 0 0 with
    | [] => None
    | (i, c) :: more =>
        Some (mkerror "UnicodeEncodeError"
                ("'utf-8' codec can't encode " ++
                 match run_length i more with
                 | O => "character '\udc" ++ hex2 c ++ "' in position " ++ str_int i
                 | S k =>
                     "characters in position " ++ str_int i ++ "-" ++
                     str_int (i + Z.of_nat (S k))
                 end ++ ": surrogates not allowed"))
    end
|}.

(** A name that is not UTF-8: [a], the byte FF, [.jpg]. *)
Definition odd_name : string := "a" ++ String (ascii_of_nat 255) ".jpg".

(** A directory with one picture, stored under that name. *)
Definition odd : world :=
  world_of
    [("pics", Dir [odd_name]);
     ("pics/" ++ odd_name, photo [(36867, EStr "2023:10:15 12:30:45")])].

(** A file that cannot be read as an image, stored under that name. *)
Definition odd_corrupt : world :=
  world_of [("pics", Dir [odd_name]); ("pics/" ++ odd_name, corrupt)].
End Sample.

(** ** More vocabulary *)

(** The font files [add_watermark] tries, in the order it tries them. *)
Definition font_candidates : list string :=
  ["arial.ttf"; "/System/Library/Fonts/Arial.ttf";
   "/usr/share/fonts/truetype/dejavu/DejaVuSans.ttf"].

(** [s] has a [/]. *)
Fixpoint has_sep (s : string) : bool :=
  match s with
  | "" => false
  | String c s' => is_sep c || has_sep s'
  end.

(** The last character of [s]. *)
Fixpoint last_char (s : string) : option ascii :=
  match s with
  | "" => None
  | String c s' => match s' with "" => Some c | _ => last_char s' end
  end.

(** [p] without the slashes at its end, or [p] itself when it is made of
    slashes only: the directory [glob] lists for the input directory [p]. *)
Definition stripped (p : string) : string :=
  if all_sep p then p else rstrip_sep p.

(** The names [scandir] gives for [dirname], none when it is no directory. *)
Definition listing (w : world) (dirname : string) : list string :=
  match lookup_path w dirname with Some (Dir names) => names | _ => [] end.

(** The text EXIF prescribes for a date and time: [YYYY:MM:DD HH:MM:SS]. *)
Definition exif_timestamp (dt : datetime) : string :=
  fixed 4 (year dt) ++ ":" ++ fixed 2 (month dt) ++ ":" ++ fixed 2 (day dt) ++ " " ++
  fixed 2 (hour dt) ++ ":" ++ fixed 2 (minute dt) ++ ":" ++ fixed 2 (second dt).

(** A date of the calendar and a time of the day. *)
Definition valid_datetime (dt : datetime) : Prop :=
  1 <= year dt <= 9999 /\ 1 <= month dt <= 12 /\
  1 <= day dt <= days_in_month (year dt) (month dt) /\
  0 <= hour dt <= 23 /\ 0 <= minute dt <= 59 /\ 0 <= second dt <= 59.

Section Parts.
Context {RT : Runtime} {OUT : Stream}.

(** Lines 143 to 163 of [main]: the header, the loop over the images and
    the footer. *)
Definition report (a : args) (output_dir : string) (image_files : list string) : M Z :=
  print ("找到 " ++ str_len image_files ++ " 张图片") ;;
  print ("输出目录: " ++ output_dir) ;;
  print ("字体大小: " ++ str_int (font_size a) ++ ", 颜色: " ++ color a ++
         ", 位置: " ++ position a) ;;
  print (repeat_str "-" 50) ;;
  let* success_count := process_images a output_dir image_files 0 in
  print (repeat_str "-" 50) ;;
  print (summary success_count (length image_files)) ;;
  ret 0.

(** Lines 64 and 65 in the world [w]: the date of the clock, printed. *)
Definition current_date (w : world) : (pyerror + string) * world :=
  match print_fault w ("水印: " ++ strftime_ymd (now w)) with
  | Some e => (inl e, w)
  | None => (inr (strftime_ymd (now w)), logged ("水印: " ++ strftime_ymd (now w)) w)
  end.

End Parts.

(** The stream takes every line, in every world. *)
Definition accepts_all (OUT : Stream) : Prop :=
  forall w line, print_fault w line = None.

(** The twelve endings directory mode looks for. *)
Definition image_suffixes : list string :=
  [".jpg"; ".JPG"; ".jpeg"; ".JPEG"; ".png"; ".PNG";
   ".bmp"; ".BMP"; ".tiff"; ".TIFF"; ".webp"; ".WEBP"].

(** * Properties *)

(** ** Position Resolver *)

Lemma not_anchor_eqb (position : string) :
  position ∉ anchors ->
  String.eqb position "top-left" = false /\
  String.eqb position "top-center" = false /\
  String.eqb position "top-right" = false /\
  String.eqb position "center" = false /\
  String.eqb position "bottom-left" = false /\
  String.eqb position "bottom-center" = false /\
  String.eqb position "bottom-right" = false.
Proof.
  intros Hnot. unfold anchors in Hnot.
  repeat split; apply String.eqb_neq; intros ->; apply Hnot; set_solver.
Qed.

Lemma get_position_fallback (W H tw th : Z) (position : string) :
  position ∉ anchors ->
  get_position W H tw th position = (W - tw - 20, H - th - 20).
Proof.
  intros Hnot. destruct (not_anchor_eqb position Hnot) as (E1 & E2 & E3 & E4 & E5 & E6 & E7).
  unfold get_position, padding. rewrite E1, E2, E3, E4, E5, E6, E7. reflexivity.
Qed.

(** C4: the resolver is a function of its five arguments alone, it keeps a
    margin of 20 and divides with [//], and it sends the seven anchors to
    the coordinates of the table and every other anchor to those of
    bottom-right. *)
Theorem get_position_table (W H tw th : Z) :
  padding = 20 /\
  get_position W H tw th "top-left" = (20, 20) /\
  get_position W H tw th "top-center" = ((W - tw) / 2, 20) /\
  get_position W H tw th "top-right" = (W - tw - 20, 20) /\
  get_position W H tw th "center" = ((W - tw) / 2, (H - th) / 2) /\
  get_position W H tw th "bottom-left" = (20, H - th - 20) /\
  get_position W H tw th "bottom-center" = ((W - tw) / 2, H - th - 20) /\
  get_position W H tw th "bottom-right" = (W - tw - 20, H - th - 20) /\
  forall position : string,
    position ∉ anchors ->
    get_position W H tw th position = (W - tw - 20, H - th - 20).
Proof.
  repeat split; try reflexivity.
  intros position Hnot. now apply get_position_fallback.
Qed.

Lemma get_position_table_witness :
  get_position 4000 3000 180 36 "center" = (1910, 1482) /\
  get_position 4000 3000 180 36 "north-east" = (3800, 2944).
Proof.
  destruct (get_position_table 4000 3000 180 36)
    as (_ & _ & _ & _ & Hc & _ & _ & _ & Hother).
  split.
  - rewrite Hc. reflexivity.
  - apply Hother. unfold anchors. intros Hin.
    repeat (apply elem_of_cons in Hin; destruct Hin as [Hin | Hin]; [discriminate Hin |]).
    apply elem_of_nil in Hin. exact Hin.
Defined.

Lemma get_position_cases (W H tw th : Z) (position : string) :
  let p := get_position W H tw th position in
  (fst p = 20 \/ fst p = (W - tw) / 2 \/ fst p = W - tw - 20) /\
  (snd p = 20 \/ snd p = (H - th) / 2 \/ snd p = H - th - 20).
Proof.
  unfold get_position, padding.
  repeat (destruct (String.eqb position _); [simpl; auto |]).
  simpl; auto.
Qed.

(** C2, as stated, fails: on a 10 by 10 image a 5 by 5 text anchored
    top-left is put at (20, 20), outside [0, 5] x [0, 5]. *)
Lemma get_position_leaves_small_image :
  ~ (forall (position : string) (W H tw th : Z),
       position ∈ anchors ->
       0 < W -> 0 < H -> 0 < tw -> 0 < th -> tw <= W -> th <= H ->
       within W H tw th (get_position W H tw th position)).
Proof.
  intros Hall.
  assert (Hin : "top-left" ∈ anchors) by (unfold anchors; set_solver).
  assert (Hw : within 10 10 5 5 (get_position 10 10 5 5 "top-left"))
    by (apply Hall; [exact Hin | lia ..]).
  destruct Hw as [Hx _]. vm_compute in Hx. destruct Hx as [_ Hx]. apply Hx. reflexivity.
Qed.

Lemma get_position_in_bounds (position : string) (W H tw th : Z) :
  tw + 20 <= W -> th + 20 <= H ->
  within W H tw th (get_position W H tw th position).
Proof.
  intros HW HH.
  destruct (get_position_cases W H tw th position) as [Hx Hy].
  unfold within. cbv zeta in Hx, Hy.
  assert (0 <= (W - tw) / 2 <= W - tw).
  { split; [apply Z.div_pos; lia | apply Z.div_le_upper_bound; lia]. }
  assert (0 <= (H - th) / 2 <= H - th).
  { split; [apply Z.div_pos; lia | apply Z.div_le_upper_bound; lia]. }
  lia.
Qed.

(** C2, amended: when the margin fits as well, that is [tw + 20 <= W] and
    [th + 20 <= H], the coordinates lie in [0, W - tw] x [0, H - th], for
    the seven anchors and for any other value, which gives the coordinates
    of bottom-right. *)
Theorem get_position_within (position : string) (W H tw th : Z) :
  tw + 20 <= W -> th + 20 <= H ->
  within W H tw th (get_position W H tw th position) /\
  (position ∉ anchors ->
   get_position W H tw th position = get_position W H tw th "bottom-right").
Proof.
  intros HW HH. split.
  - now apply get_position_in_bounds.
  - intros Hnot. now rewrite get_position_fallback.
Qed.

Lemma get_position_within_witness :
  within 4000 3000 180 36 (get_position 4000 3000 180 36 "top-right").
Proof.
  apply (get_position_within "top-right" 4000 3000 180 36); lia.
Defined.

(** X10: the margin is what the bound needs and no more: the seven anchors
    all stay on the image exactly when the margin fits on both axes. *)
Lemma get_position_within_iff (W H tw th : Z) :
  (forall position, position ∈ anchors ->
     within W H tw th (get_position W H tw th position)) <->
  tw + 20 <= W /\ th + 20 <= H.
Proof.
  split.
  - intros Hall.
    assert (Hin : "top-left" ∈ anchors) by (unfold anchors; set_solver).
    specialize (Hall _ Hin). unfold within in Hall.
    change (get_position W H tw th "top-left") with (20, 20) in Hall.
    simpl in Hall. lia.
  - intros [HW HH] position _. now apply get_position_in_bounds.
Qed.

(** ** Metadata Reader *)

Ltac unfold_monad :=
  unfold bind, ret, raise, try_except, get_world, lift, fault in *.

Section Printing.
Context {OUT : Stream}.

Lemma print_cases (line : string) (w : world) :
  print line w =
  match print_fault w line with
  | Some e => (inl e, w)
  | None => (inr tt, logged line w)
  end.
Proof. reflexivity. Qed.

Lemma print_accepted (line : string) (w : world) :
  print_fault w line = None -> print line w = (inr tt, logged line w).
Proof. intros H. now rewrite print_cases, H. Qed.

Lemma print_inr (line : string) (w w' : world) :
  print line w = (inr tt, w') -> print_fault w line = None /\ w' = logged line w.
Proof.
  rewrite print_cases. destruct (print_fault w line); intros H; inversion H; auto.
Qed.
End Printing.

Lemma accepting_accepts_all : accepts_all accepting.
Proof. intros w line. reflexivity. Qed.

Section MetadataReader.
Context {RT : Runtime} {OUT : Stream}.

Lemma scan_tags_run (items : list (Z * exif_value)) (w : world) :
  scan_tags items w =
  match capture_value items with
  | None => (inr None, w)
  | Some value =>
      match strptime_value value with
      | inl e => (inl e, w)
      | inr dt => (inr (Some (format_date dt)), w)
      end
  end.
Proof.
  induction items as [| [tag_id value] rest IH]; [reflexivity |].
  unfold capture_value in *. simpl.
  destruct (is_DateTimeOriginal tag_id); simpl; [| exact IH].
  destruct (truthy value); simpl; [| exact IH].
  unfold_monad. destruct (strptime_value value); reflexivity.
Qed.

#[local] Arguments scan_tags : simpl never.

(** Every run of the reader. *)
Lemma get_exif_datetime_cases (image_path : string) (w : world) :
  get_exif_datetime image_path w =
  match reading_of w image_path with
  | CannotOpen e | MetadataFails e | ParseFails e =>
      match print_fault w (exif_failed image_path e) with
      | Some e' => (inl e', w)
      | None => (inr None, logged (exif_failed image_path e) w)
      end
  | NoMetadata | NoTag => (inr None, w)
  | Captured dt => (inr (Some (format_date dt)), w)
  end.
Proof.
  unfold get_exif_datetime, reading_of, Image_open, getexif.
  unfold_monad. simpl.
  destruct (lookup_path w image_path) as [[names | [e | opened]] |]; simpl;
    try (unfold print; destruct (print_fault w _); reflexivity).
  destruct (exif opened) as [e | | [| item items]]; simpl;
    try (unfold print; destruct (print_fault w _); reflexivity); try reflexivity.
  rewrite (scan_tags_run (item :: items) w).
  destruct (capture_value (item :: items)) as [value |]; [| reflexivity].
  destruct (strptime_value value);
    [unfold print; destruct (print_fault w _); reflexivity | reflexivity].
Qed.

End MetadataReader.

Section MetadataReaderClaims.
Context {RT : Runtime} {OUT : Stream}.

(** C6, amended: every run of the reader, on every standard output.  When
    the metadata block or the tag is absent the reader returns no date and
    prints nothing.  When the file cannot be opened, when its metadata
    cannot be read and when the capture date does not parse, the handler
    prints one line that ends with the message of the exception, and then
    the reader returns no date; when the stream refuses that line, the
    [print] of the handler raises, the reader raises that exception to its
    caller, and nothing is printed.  With a capture date that parses the
    reader returns it and prints nothing.  The file system and the clock
    are never changed. *)
Theorem get_exif_datetime_outcomes (image_path : string) (w : world) :
  match reading_of w image_path with
  | CannotOpen e | MetadataFails e | ParseFails e =>
      let line := "读取 " ++ image_path ++ " 的EXIF信息失败: " ++ msg e in
      match print_fault w line with
      | None => get_exif_datetime image_path w = (inr None, logged line w)
      | Some e' => get_exif_datetime image_path w = (inl e', w)
      end
  | NoMetadata | NoTag =>
      get_exif_datetime image_path w = (inr None, w)
  | Captured dt =>
      get_exif_datetime image_path w = (inr (Some (format_date dt)), w)
  end.
Proof.
  pose proof (get_exif_datetime_cases image_path w) as Hrun.
  unfold exif_failed in Hrun. cbv zeta.
  destruct (reading_of w image_path); try exact Hrun;
    match goal with |- context [print_fault w ?l] => destruct (print_fault w l) end;
    exact Hrun.
Qed.
End MetadataReaderClaims.

Section MetadataReaderRuns.
#[local] Existing Instance Sample.runtime.
#[local] Existing Instance accepting.

(** C6, as stated, fails: a picture without a metadata block and one
  without the capture-date tag both give no date, and nothing is printed. *)
Lemma absent_date_is_not_logged :
reading_of Sample.five "pics/d.png" = NoMetadata /\
reading_of Sample.five "pics/e.JPG" = NoTag /\
get_exif_datetime "pics/d.png" Sample.five = (inr None, Sample.five) /\
get_exif_datetime "pics/e.JPG" Sample.five = (inr None, Sample.five) /\
stdout Sample.five = [].
Proof. repeat split; vm_compute; reflexivity. Qed.

Lemma get_exif_datetime_outcomes_witness :
get_exif_datetime "pics/c.jpg" Sample.five =
(inr None,
 logged "读取 pics/c.jpg 的EXIF信息失败: cannot identify image file" Sample.five).
Proof.
exact (get_exif_datetime_outcomes "pics/c.jpg" Sample.five).
Defined.

(** On a standard output that encodes strictly, a file that cannot be
  read and whose name is not UTF-8 makes the reader raise: the line of
  the handler shows the name. *)
Lemma unprintable_diagnostic_raises :
reading_of Sample.odd_corrupt ("pics/" ++ Sample.odd_name) =
CannotOpen (mkerror "UnidentifiedImageError" "cannot identify image file") /\
get_exif_datetime (OUT := Sample.strict) ("pics/" ++ Sample.odd_name) Sample.odd_corrupt =
(inl (mkerror "UnicodeEncodeError"
        "'utf-8' codec can't encode character '\udcff' in position 9: surrogates not allowed"),
 Sample.odd_corrupt).
Proof. split; vm_compute; reflexivity. Qed.
End MetadataReaderRuns.

(** ** The watermark text *)

Lemma forallb_between (P : Z -> bool) (lo hi : Z) :
  forallb P (map (fun i => lo + Z.of_nat i) (seq 0 (Z.to_nat (hi - lo)))) = true ->
  forall z, lo <= z < hi -> P z = true.
Proof.
  intros Hall z Hz. rewrite forallb_forall in Hall. apply Hall.
  apply in_map_iff. exists (Z.to_nat (z - lo)). split; [lia |].
  apply in_seq. lia.
Qed.

Lemma str_int_four_digits (n : Z) : 1000 <= n <= 9999 -> str_int n = fixed 4 n.
Proof.
  intros Hn. apply String.eqb_eq.
  apply (forallb_between (fun z => String.eqb (str_int z) (fixed 4 z)) 1000 10000);
    [vm_compute; reflexivity | lia].
Qed.

Lemma str_int_two_digits (n : Z) : 10 <= n <= 99 -> str_int n = fixed 2 n.
Proof.
  intros Hn. apply String.eqb_eq.
  apply (forallb_between (fun z => String.eqb (str_int z) (fixed 2 z)) 10 100);
    [vm_compute; reflexivity | lia].
Qed.

Lemma pad2_two_digits (n : Z) : 0 <= n <= 99 -> pad2 n = fixed 2 n.
Proof.
  intros Hn. apply String.eqb_eq.
  apply (forallb_between (fun z => String.eqb (pad2 z) (fixed 2 z)) 0 100);
    [vm_compute; reflexivity | lia].
Qed.

Lemma append_empty_r (s : string) : s ++ "" = s.
Proof.
  induction s as [| c s IH]; [reflexivity |].
  change (String c (s ++ "") = String c s). now rewrite IH.
Qed.

Section WatermarkTextOn.
Context {RT : Runtime} {OUT : Stream}.

Lemma format_date_not_empty (dt : datetime) :
  exists c t, format_date dt = String c t.
Proof.
  unfold format_date. destruct (str_int (year dt)) as [| c t]; simpl; eauto.
Qed.

(** Every run of lines 62 to 65. *)
Lemma watermark_text_of_cases (image_path : string) (w : world) :
  watermark_text_of image_path w =
  match reading_of w image_path with
  | Captured dt => (inr (format_date dt), w)
  | CannotOpen e | MetadataFails e | ParseFails e =>
      match print_fault w (exif_failed image_path e) with
      | Some e' => (inl e', w)
      | None => current_date (logged (exif_failed image_path e) w)
      end
  | NoMetadata | NoTag => current_date w
  end.
Proof.
  assert (Hfallback : forall w0,
            (let* w1 := get_world in
             let watermark_text := strftime_ymd (now w1) in
             print ("水印: " ++ watermark_text) ;; ret watermark_text) w0 =
            current_date w0).
  { intros w0. unfold bind, get_world, current_date. rewrite print_cases.
    destruct (print_fault w0 _); reflexivity. }
  unfold watermark_text_of. unfold bind at 1.
  rewrite get_exif_datetime_cases.
  destruct (reading_of w image_path) as [e | e | | | e | dt];
    try (destruct (print_fault w (exif_failed image_path e)); [reflexivity |]);
    try apply Hfallback.
  destruct (format_date_not_empty dt) as (c & t & ->). reflexivity.
Qed.

Lemma watermark_text_of_run (image_path : string) (w : world) :
  accepts_all OUT ->
  watermark_text_of image_path w =
  match reading_of w image_path with
  | Captured dt => (inr (format_date dt), w)
  | CannotOpen e | MetadataFails e | ParseFails e =>
      (inr (strftime_ymd (now w)),
       logged ("水印: " ++ strftime_ymd (now w)) (logged (exif_failed image_path e) w))
  | NoMetadata | NoTag =>
      (inr (strftime_ymd (now w)), logged ("水印: " ++ strftime_ymd (now w)) w)
  end.
Proof.
  intros Hall. rewrite watermark_text_of_cases. unfold current_date.
  destruct (reading_of w image_path); rewrite ?Hall; reflexivity.
Qed.
End WatermarkTextOn.

(** In the rest of this part standard output takes every line. *)
Section WatermarkText.
Context {RT : Runtime}.
#[local] Existing Instance accepting.

End WatermarkText.

Section WatermarkTextRuns.
#[local] Existing Instance Sample.runtime.
#[local] Existing Instance accepting.


End WatermarkTextRuns.

(** ** Watermark Renderer *)

Section Renderer.
Context {RT : Runtime} {OUT : Stream}.

Lemma bind_inr {A B} (c : M A) (k : A -> M B) (w w' : world) (b : B) :
  bind c k w = (inr b, w') ->
  exists a w1, c w = (inr a, w1) /\ k a w1 = (inr b, w').
Proof.
  unfold bind. destruct (c w) as [[e | a] w1]; [discriminate | eauto].
Qed.

Lemma fault_inr (o : option pyerror) (w w' : world) :
  fault o w = (inr tt, w') -> o = None /\ w' = w.
Proof.
  destruct o; unfold fault, raise, ret; intros H; inversion H; auto.
Qed.

Lemma Image_open_inr (p : string) (w w' : world) (opened : image_file) :
  Image_open p w = (inr opened, w') ->
  lookup_path w p = Some (File (inr opened)) /\ w' = w.
Proof.
  unfold Image_open. unfold_monad.
  destruct (lookup_path w p) as [[names | [e | f]] |]; simpl; intros H;
    inversion H; auto.
Qed.

Lemma convert_inr (m : string) (img img' : image) (w w' : world) :
  convert m img w = (inr img', w') ->
  img' = mkimage m (width img) (height img) (canvas img) /\ w' = w.
Proof.
  unfold convert. intros H. apply bind_inr in H as (u & w1 & Hf & Hr).
  destruct u. apply fault_inr in Hf as [_ ->]. unfold ret in Hr. inversion Hr; auto.
Qed.

Lemma to_rgba_inr (img img' : image) (w w' : world) :
  to_rgba img w = (inr img', w') ->
  mode img' = "RGBA" /\ width img' = width img /\ height img' = height img /\
  canvas img' = canvas img /\ w' = w.
Proof.
  unfold to_rgba. destruct (String.eqb_spec (mode img) "RGBA") as [Hm | Hm]; simpl.
  - unfold ret. intros H. inversion H; subst. auto.
  - intros H. apply convert_inr in H as [-> ->]. auto.
Qed.

Lemma draw_text_inr (img img' : image) (xy : Z * Z) (text : string) (f : font)
    (fill : string) (w w' : world) :
  draw_text img xy text f fill w = (inr img', w') ->
  img' = mkimage (mode img) (width img) (height img)
           (canvas img ++ [DrawText xy text f fill]) /\ w' = w.
Proof.
  unfold draw_text. intros H. apply bind_inr in H as (u & w1 & Hf & Hr).
  destruct u. apply fault_inr in Hf as [_ ->]. unfold ret in Hr. inversion Hr; auto.
Qed.

(** On an image in mode RGBA the test before saving succeeds. *)
Lemma flatten_rgba (img : image) :
  mode img = "RGBA" -> flatten img = convert "RGB" img.
Proof. intros Hm. unfold flatten. rewrite Hm. reflexivity. Qed.

Lemma store_lookup (p : string) (n : node) (w w' : world) :
  store p n w = (inr tt, w') ->
  fs w' !! p = Some n /\ now w' = now w /\ stdout w' = stdout w.
Proof.
  unfold store. destruct (split p) as [parent name]. intros H. inversion H; subst.
  simpl. rewrite lookup_insert_eq. auto.
Qed.

Lemma save_inr (img : image) (p : string) (w w' : world) :
  save img p w = (inr tt, w') ->
  fs w' !! p = Some (File (inr (mkfile img (written_exif p img)))) /\
  now w' = now w /\ stdout w' = stdout w.
Proof.
  unfold save. intros H. apply bind_inr in H as (w0 & w1 & Hg & H).
  unfold get_world in Hg. inversion Hg; subst w0 w1.
  apply bind_inr in H as (u & w1 & Hf & H). destruct u.
  apply fault_inr in Hf as [_ ->]. now apply store_lookup in H.
Qed.

Lemma shadow_color_of_black (color : string) : shadow_color_of color = "black".
Proof. unfold shadow_color_of. destruct (String.eqb color "white"); reflexivity. Qed.

(** What a run of [render] that reaches its end has done. *)
Lemma render_inr (image_path output_path : string) (font_size : Z)
    (color position : string) (w w' : world) :
  render image_path output_path font_size color position w = (inr tt, w') ->
  exists opened working text w1 font w2 bbox saved,
    lookup_path w image_path = Some (File (inr opened)) /\
    to_rgba (picture opened) w = (inr working, w) /\
    watermark_text_of image_path w = (inr text, w1) /\
    load_font font_size w1 = (inr font, w2) /\
    textbbox font text = inr bbox /\
    let (x, y) :=
      get_position (width working) (height working)
        (fst (text_size bbox)) (snd (text_size bbox)) position in
    let drawn :=
      mkimage (mode working) (width working) (height working)
        (canvas working ++
         [DrawText (x + 2, y + 2) text font (shadow_color_of color);
          DrawText (x, y) text font color]) in
    flatten drawn w2 = (inr saved, w2) /\
    fs w' !! output_path =
      Some (File (inr (mkfile saved (written_exif output_path saved)))) /\
    stdout w' = stdout (logged ("已保存: " ++ output_path) w2).
Proof.
  unfold render. intros H.
  apply bind_inr in H as (opened & w0 & Hopen & H).
  apply Image_open_inr in Hopen as [Hopen ->].
  apply bind_inr in H as (working & w0 & Hrgba & H).
  pose proof (to_rgba_inr _ _ _ _ Hrgba) as (_ & _ & _ & _ & ->).
  apply bind_inr in H as (text & w1 & Htext & H).
  apply bind_inr in H as (font & w2 & Hfont & H).
  apply bind_inr in H as (bbox & w3 & Hbbox & H).
  assert (Hb : textbbox font text = inr bbox /\ w3 = w2).
  { unfold lift in Hbbox. destruct (textbbox font text); unfold raise, ret in Hbbox;
      inversion Hbbox; auto. }
  destruct Hb as [Hb ->].
  exists opened, working, text, w1, font, w2, bbox.
  destruct (text_size bbox) as [tw th] eqn:Hsize. simpl fst. simpl snd.
  destruct (get_position (width working) (height working) tw th position) as [x y].
  apply bind_inr in H as (img1 & w3 & Hd1 & H). apply draw_text_inr in Hd1 as [-> ->].
  apply bind_inr in H as (img2 & w3 & Hd2 & H). apply draw_text_inr in Hd2 as [-> ->].
  apply bind_inr in H as (saved & w3 & Hflat & H).
  assert (w3 = w2) as ->.
  { unfold flatten in Hflat. destruct (String.eqb _ "RGBA").
    - now apply convert_inr in Hflat.
    - unfold ret in Hflat. now inversion Hflat. }
  apply bind_inr in H as (u & w3 & Hsave & H). destruct u.
  apply print_inr in H as [_ ->].
  apply save_inr in Hsave as (Hfs & _ & Hout).
  exists saved. simpl in *. rewrite <- app_assoc in Hflat. simpl in Hflat.
  rewrite Hout. repeat split; assumption.
Qed.
End Renderer.

Section RendererClaims.
Context {RT : Runtime} {OUT : Stream}.

Lemma flatten_canvas (img saved : image) (w w' : world) :
  flatten img w = (inr saved, w') -> canvas saved = canvas img.
Proof.
  unfold flatten. destruct (String.eqb (mode img) "RGBA").
  - intros H. apply convert_inr in H as [-> _]. reflexivity.
  - unfold ret. intros H. now inversion H.
Qed.

(** C8: a run of the renderer that saves an image has drawn on the opened
    picture first the shadow, which is the watermark text in black two
    pixels right of and below the resolved position whatever colour was
    asked for, black included, and then the same text at the resolved
    position in the colour asked for. *)
Theorem render_shadow_then_text (image_path output_path : string) (font_size : Z)
    (color position : string) (w w' : world) :
  render image_path output_path font_size color position w = (inr tt, w') ->
  shadow_color_of color = "black" /\
  shadow_color_of "black" = "black" /\
  exists opened text font bbox saved,
    lookup_path w image_path = Some (File (inr opened)) /\
    fst (watermark_text_of image_path w) = inr text /\
    textbbox font text = inr bbox /\
    fs w' !! output_path = Some (File (inr saved)) /\
    let (x, y) :=
      get_position (width (picture opened)) (height (picture opened))
        (fst (text_size bbox)) (snd (text_size bbox)) position in
    canvas (picture saved) =
      (canvas (picture opened) ++
       [DrawText (x + 2, y + 2) text font "black"; DrawText (x, y) text font color])%list.
Proof.
  intros Hrun. split; [apply shadow_color_of_black |].
  split; [reflexivity |].
  apply render_inr in Hrun
    as (opened & working & text & w1 & font & w2 & bbox & saved &
        Hopen & Hrgba & Htext & Hfont & Hbbox & Hrest).
  apply to_rgba_inr in Hrgba as (_ & Hw & Hh & Hc & _).
  rewrite Hw, Hh in Hrest.
  exists opened, text, font, bbox, (mkfile saved (written_exif output_path saved)).
  rewrite Htext.
  destruct (get_position (width (picture opened)) (height (picture opened))
              (fst (text_size bbox)) (snd (text_size bbox)) position) as [x y].
  destruct Hrest as (Hflat & Hfs & _).
  apply flatten_canvas in Hflat. simpl in Hflat.
  rewrite shadow_color_of_black, Hc in Hflat.
  repeat split; assumption.
Qed.

(** C10: a run of the renderer that saves an image has worked on an image
    in mode RGBA from right after opening, converted when the opened one
    was in another mode; the test before saving therefore succeeds, the
    image is converted to RGB, and the file written is in mode RGB. *)
Theorem render_saves_rgb (image_path output_path : string) (font_size : Z)
    (color position : string) (w w' : world) :
  render image_path output_path font_size color position w = (inr tt, w') ->
  exists opened working drawn saved,
    lookup_path w image_path = Some (File (inr opened)) /\
    fst (to_rgba (picture opened) w) = inr working /\
    (mode (picture opened) = "RGBA" /\ working = picture opened \/
     mode (picture opened) <> "RGBA" /\
     fst (convert "RGBA" (picture opened) w) = inr working) /\
    mode working = "RGBA" /\
    mode drawn = "RGBA" /\
    flatten drawn = convert "RGB" drawn /\
    canvas (picture saved) = canvas drawn /\
    fs w' !! output_path = Some (File (inr saved)) /\
    mode (picture saved) = "RGB".
Proof.
  intros Hrun.
  apply render_inr in Hrun
    as (opened & working & text & w1 & font & w2 & bbox & saved &
        Hopen & Hrgba & Htext & Hfont & Hbbox & Hrest).
  pose proof (to_rgba_inr _ _ _ _ Hrgba) as (Hmode & _).
  destruct (get_position (width working) (height working)
              (fst (text_size bbox)) (snd (text_size bbox)) position) as [x y].
  destruct Hrest as (Hflat & Hfs & _).
  match type of Hflat with flatten ?d _ = _ => set (drawn := d) in * end.
  assert (Hdrawn : mode drawn = "RGBA") by exact Hmode.
  exists opened, working, drawn, (mkfile saved (written_exif output_path saved)).
  rewrite Hrgba. simpl.
  repeat split; try assumption; try reflexivity.
  - unfold to_rgba in Hrgba.
    destruct (String.eqb_spec (mode (picture opened)) "RGBA") as [Heq | Hne];
      simpl in Hrgba.
    + left. unfold ret in Hrgba. split; [exact Heq | now inversion Hrgba].
    + right. rewrite Hrgba. auto.
  - now apply flatten_rgba.
  - now apply flatten_canvas in Hflat.
  - rewrite (flatten_rgba drawn Hdrawn) in Hflat.
    apply convert_inr in Hflat as [-> _]. reflexivity.
Qed.
End RendererClaims.

Section RendererRuns.
#[local] Existing Instance Sample.runtime.
#[local] Existing Instance accepting.

Lemma render_shadow_then_text_witness :
  exists saved,
    fs Sample.stamped !! "pics/stamped.jpg" = Some (File (inr saved)) /\
    canvas (picture saved) =
      [DrawText (1912, 1484) "2023\10\15"
         (TrueType "/usr/share/fonts/truetype/dejavu/DejaVuSans.ttf" 36) "black";
       DrawText (1910, 1482) "2023\10\15"
         (TrueType "/usr/share/fonts/truetype/dejavu/DejaVuSans.ttf" 36) "black"].
Proof.
  assert (Hrun : render "pics/a.jpg" "pics/stamped.jpg" 36 "black" "center" Sample.five
                 = (inr tt, Sample.stamped)) by (vm_compute; reflexivity).
  destruct (render_shadow_then_text _ _ _ _ _ _ _ Hrun)
    as (_ & _ & opened & text & font & bbox & saved & _ & _ & _ & Hfs & _).
  exists saved. split; [exact Hfs |].
  vm_compute in Hfs. inversion Hfs. reflexivity.
Defined.

Lemma render_saves_rgb_witness :
  exists saved,
    fs Sample.stamped !! "pics/stamped.jpg" = Some (File (inr saved)) /\
    mode (picture saved) = "RGB".
Proof.
  assert (Hrun : render "pics/a.jpg" "pics/stamped.jpg" 36 "black" "center" Sample.five
                 = (inr tt, Sample.stamped)) by (vm_compute; reflexivity).
  destruct (render_saves_rgb _ _ _ _ _ _ _ Hrun)
    as (opened & working & drawn & saved & _ & _ & _ & _ & _ & _ & _ & Hfs & Hmode).
  exists saved. split; [exact Hfs | exact Hmode].
Defined.
End RendererRuns.

(** ** Batch Driver *)

Section BatchDriver.
Context {RT : Runtime} {OUT : Stream}.

Lemma glob_reads (pathname : string) (w : world) :
  exists l, glob pathname w = (inr l, w).
Proof.
  unfold glob. unfold_monad. destruct (split pathname). eauto.
Qed.

Lemma collect_reads (input_dir : string) (exts : list string) (w : world) :
  exists l, collect input_dir exts w = (inr l, w).
Proof.
  induction exts as [| ext rest IH]; [simpl; unfold ret; eauto |].
  cbn [collect].
  destruct (glob_reads (join input_dir ext) w) as [l1 H1].
  destruct (glob_reads (join input_dir (upper ext)) w) as [l2 H2].
  destruct IH as [l3 H3].
  unfold bind. rewrite H1, H2, H3. unfold ret. eauto.
Qed.

Lemma resolve_inputs_reads (path : string) (w : world) :
  resolve_inputs path w = (inr (working_set w path, input_dir_of w path), w).
Proof.
  assert (H : exists r, resolve_inputs path w = (inr r, w)).
  { unfold resolve_inputs, isfile. unfold bind at 1 2. unfold get_world, ret at 1.
    destruct (match lookup_path w path with Some (File _) => true | _ => false end).
    - unfold ret. eauto.
    - destruct (collect_reads path image_extensions w) as [l Hl].
      unfold bind. rewrite Hl. unfold ret. eauto. }
  destruct H as [[files dir] H]. unfold working_set, input_dir_of. now rewrite H.
Qed.

(** [os.makedirs] changes nothing when it raises. *)
Lemma makedirs_inl (p : string) (e : pyerror) (w w' : world) :
  makedirs p w = (inl e, w') -> w' = w.
Proof.
  unfold makedirs. unfold bind at 1. unfold get_world. unfold bind.
  destruct (makedirs_fault w p); cbn [fault]; unfold raise, ret.
  - intros H. now inversion H.
  - destruct (lookup_path w p) as [[names | content] |].
    + intros H. now inversion H.
    + intros H. now inversion H.
    + unfold store. destruct (split p). discriminate.
Qed.

(** [main] up to the call of [os.makedirs]. *)
Lemma main_checks (a : args) (w : world) :
  let path := image_path a in
  main a w =
  match lookup_path w path with
  | None => (print ("错误：路径 " ++ path ++ " 不存在") ;; ret 1) w
  | Some _ =>
      match working_set w path with
      | [] => (print ("在 " ++ path ++ " 中未找到图片文件") ;; ret 1) w
      | f :: files =>
          (makedirs (output_dir_of w path) ;;
           report a (output_dir_of w path) (f :: files)) w
      end
  end.
Proof.
  intros path.
  remember (main a w) as r eqn:Hr.
  unfold main, exists_ in Hr.
  unfold bind at 1 2 in Hr. unfold get_world, ret at 1 in Hr. fold path in Hr.
  destruct (lookup_path w path) as [n |] eqn:Hpath.
  - rewrite bool_decide_eq_true_2 in Hr by eauto. cbn [negb] in Hr.
    unfold bind at 1 in Hr. rewrite resolve_inputs_reads in Hr. fold path in Hr.
    destruct (working_set w path) as [| f files] eqn:Hfiles.
    + rewrite bool_decide_eq_true_2 in Hr by reflexivity. exact Hr.
    + rewrite bool_decide_eq_false_2 in Hr by discriminate. exact Hr.
  - rewrite bool_decide_eq_false_2 in Hr by (intros [? ?]; discriminate). exact Hr.
Qed.

(** A run that prints its error and leaves with status 1. *)
Lemma exit_after_print (line : string) (w : world) :
  exit_status ((print line ;; ret 1) w) = 1 /\ fs (snd ((print line ;; ret 1) w)) = fs w.
Proof.
  unfold bind. rewrite print_cases. destruct (print_fault w line); split; reflexivity.
Qed.
End BatchDriver.

Section BatchDriverAccepted.
Context {RT : Runtime} {OUT : Stream}.
Hypothesis Hall : accepts_all OUT.

(** [add_watermark] catches whatever [render] raises. *)
Lemma add_watermark_returns (image_path output_path : string) (font_size : Z)
    (color position : string) (w : world) :
  exists w', add_watermark image_path output_path font_size color position w = (inr tt, w').
Proof.
  unfold add_watermark, try_except.
  destruct (render image_path output_path font_size color position w) as [[e | []] w1].
  - rewrite print_accepted by apply Hall. eauto.
  - eauto.
Qed.

(** So the loop counts every file of the working set, saved or not. *)
Lemma process_images_counts_all (a : args) (output_dir : string)
    (image_files : list string) (success_count : Z) (w : world) :
  exists w',
    process_images a output_dir image_files success_count w =
    (inr (success_count + Z.of_nat (length image_files)), w').
Proof.
  revert success_count w.
  induction image_files as [| image_path rest IH]; intros success_count w.
  - exists w. cbn [process_images length]. unfold ret.
    now rewrite Z.add_0_r.
  - cbn [process_images]. unfold bind at 1. unfold try_except.
    unfold bind at 1. rewrite print_accepted by apply Hall.
    destruct (add_watermark_returns image_path
                (join output_dir (basename image_path))
                (font_size a) (color a) (position a)
                (logged ("处理: " ++ basename image_path) w)) as [w1 Hw1].
    unfold bind at 1. rewrite Hw1. unfold ret at 1.
    destruct (IH (success_count + 1) w1) as [w2 Hw2].
    exists w2. rewrite Hw2. cbn [length].
    replace (success_count + 1 + Z.of_nat (length rest))
      with (success_count + Z.of_nat (S (length rest))) by lia.
    reflexivity.
Qed.

(** The header, the loop and the footer. *)
Lemma report_run (a : args) (output_dir : string) (image_files : list string)
    (w : world) :
  exists w',
    report a output_dir image_files w = (inr 0, w') /\
    last (stdout w') =
      Some (summary (Z.of_nat (length image_files)) (length image_files)).
Proof.
  unfold report. repeat (unfold bind at 1; rewrite print_accepted by apply Hall).
  unfold bind at 1.
  destruct (process_images_counts_all a output_dir image_files 0
              (logged (repeat_str "-" 50)
                 (logged ("字体大小: " ++ str_int (font_size a) ++ ", 颜色: " ++
                          color a ++ ", 位置: " ++ position a)
                    (logged ("输出目录: " ++ output_dir)
                       (logged ("找到 " ++ str_len image_files ++ " 张图片") w)))))
    as [w1 Hw1].
  rewrite Hw1. repeat (unfold bind at 1; rewrite print_accepted by apply Hall).
  unfold ret. eexists. split; [reflexivity |].
  cbn [stdout logged]. now rewrite last_snoc.
Qed.

(** The four ways a run of [main] ends. *)
Lemma main_run (a : args) (w : world) :
  let path := image_path a in
  let output_dir := output_dir_of w path in
  match lookup_path w path with
  | None => main a w = (inr 1, logged ("错误：路径 " ++ path ++ " 不存在") w)
  | Some _ =>
      match working_set w path with
      | [] => main a w = (inr 1, logged ("在 " ++ path ++ " 中未找到图片文件") w)
      | _ :: _ =>
          match makedirs output_dir w with
          | (inl e, _) => main a w = (inl e, w)
          | (inr _, _) =>
              exists w',
                main a w = (inr 0, w') /\
                last (stdout w') =
                  Some (summary (Z.of_nat (length (working_set w path)))
                          (length (working_set w path)))
          end
      end
  end.
Proof.
  intros path output_dir.
  pose proof (main_checks a w) as Hmain. cbv zeta in Hmain. fold path in Hmain.
  fold output_dir in Hmain.
  destruct (lookup_path w path) as [n |].
  - destruct (working_set w path) as [| f files].
    + rewrite Hmain. unfold bind. now rewrite print_accepted by apply Hall.
    + unfold bind at 1 in Hmain.
      destruct (makedirs output_dir w) as [[e | []] w1] eqn:Hmk.
      * apply makedirs_inl in Hmk. now subst w1.
      * destruct (report_run a output_dir (f :: files) w1) as (w' & Hw' & Hlast).
        exists w'. split; [now rewrite Hmain | exact Hlast].
  - rewrite Hmain. unfold bind. now rewrite print_accepted by apply Hall.
Qed.
End BatchDriverAccepted.

Section BatchDriverClaims.
Context {RT : Runtime} {OUT : Stream}.


(** C9: when the input path is a file, the working set is that file and
    nothing else, whatever its name ends in; the patterns are only used
    when the path is not a file. *)
Theorem single_file_is_not_filtered (path : string) (w : world) :
  (forall content,
     lookup_path w path = Some (File content) ->
     working_set w path = [path] /\
     resolve_inputs path w =
       (inr ([path], if is_empty (dirname path) then "." else dirname path), w)) /\
  ((forall content, lookup_path w path <> Some (File content)) ->
   resolve_inputs path w =
     (let* image_files := collect path image_extensions in
      ret (image_files, path)) w).
Proof.
  split.
  - intros content Hfile.
    assert (H : resolve_inputs path w =
                (inr ([path], if is_empty (dirname path) then "." else dirname path), w)).
    { unfold resolve_inputs, isfile. unfold bind at 1 2. unfold get_world, ret at 1.
      rewrite Hfile. reflexivity. }
    split; [| exact H]. unfold working_set. now rewrite H.
  - intros Hnot. unfold resolve_inputs, isfile.
    unfold bind at 1 2. unfold get_world, ret at 1.
    destruct (lookup_path w path) as [[names | content] |]; try reflexivity.
    now destruct (Hnot content).
Qed.
End BatchDriverClaims.

Section BatchDriverRuns.
#[local] Existing Instance Sample.runtime.
#[local] Existing Instance accepting.



(** On a standard output that encodes strictly, a picture whose name is
    not UTF-8 ends the run with status 1, although the directory exists,
    holds an image and the output directory is made: [print] raises on the
    line that shows the name, and again in the handler of the loop, which
    shows the path. *)
Lemma unprintable_name_aborts :
  is_Some (lookup_path Sample.odd "pics") /\
  working_set Sample.odd "pics" = ["pics/" ++ Sample.odd_name] /\
  fst (makedirs "pics/pics_watermark" Sample.odd) = inr tt /\
  fst (main (OUT := Sample.strict) (Sample.defaults "pics") Sample.odd) =
    inl (mkerror "UnicodeEncodeError"
           "'utf-8' codec can't encode character '\udcff' in position 9: surrogates not allowed") /\
  exit_status (main (OUT := Sample.strict) (Sample.defaults "pics") Sample.odd) = 1.
Proof.
  split; [vm_compute; eauto |].
  repeat split; vm_compute; reflexivity.
Qed.

Lemma single_file_is_not_filtered_witness :
  working_set Sample.lone "shots/frame.dat" = ["shots/frame.dat"].
Proof.
  destruct (single_file_is_not_filtered "shots/frame.dat" Sample.lone) as [Hfile _].
  eapply Hfile. vm_compute. reflexivity.
Defined.

(** C1, on the code: of the five images of the directory one cannot be
    opened, four get saved, and the footer reports 5/5; the status is 0. *)
Theorem corrupt_image_is_counted :
  let r := main (Sample.defaults "pics") Sample.five in
  length (working_set Sample.five "pics") = 5%nat /\
  reading_of Sample.five "pics/c.jpg" =
    CannotOpen (mkerror "UnidentifiedImageError" "cannot identify image file") /\
  fs (snd r) !! "pics/pics_watermark" = Some (Dir ["a.jpg"; "b.jpg"; "e.JPG"; "d.png"]) /\
  fs (snd r) !! "pics/pics_watermark/c.jpg" = None /\
  last (stdout (snd r)) = Some "处理完成！成功处理 5/5 张图片" /\
  exit_status r = 0.
Proof. repeat split; vm_compute; reflexivity. Qed.

(** C5, on the code: [photo.Jpg] has one of the six extensions up to case
    and lies in the directory, and it is not in the working set. *)
Theorem mixed_case_extension_is_skipped :
  lookup_path Sample.album "album" = Some (Dir ["a.jpg"; "photo.Jpg"; "notes.txt"]) /\
  has_image_extension "photo.Jpg" = true /\
  working_set Sample.album "album" = ["album/a.jpg"].
Proof. repeat split; vm_compute; reflexivity. Qed.
End BatchDriverRuns.

(** * Further properties *)

(** ** Position Resolver, continued *)

(** X1: text anchored at the centre is centred to the pixel: the margin
    right of it (below it) is the margin left of it (above it) or one more,
    also when the text is larger than the image; the two other centred
    anchors use the same horizontal coordinate. *)
Theorem centred_text_is_centred (W H tw th : Z) :
  let x := fst (get_position W H tw th "center") in
  let y := snd (get_position W H tw th "center") in
  0 <= (W - tw - x) - x <= 1 /\
  0 <= (H - th - y) - y <= 1 /\
  fst (get_position W H tw th "top-center") = x /\
  fst (get_position W H tw th "bottom-center") = x.
Proof.
  cbn [get_position String.eqb Ascii.eqb Bool.eqb fst snd].
  pose proof (Z.div_mod (W - tw) 2 ltac:(lia)) as Hx.
  pose proof (Z.mod_pos_bound (W - tw) 2 ltac:(lia)) as Hxr.
  pose proof (Z.div_mod (H - th) 2 ltac:(lia)) as Hy.
  pose proof (Z.mod_pos_bound (H - th) 2 ltac:(lia)) as Hyr.
  repeat split; try reflexivity; lia.
Qed.

(** ** Watermark Renderer, continued *)

(** For the choice of the font standard output takes every line. *)
Section RendererFurther.
Context {RT : Runtime}.
#[local] Existing Instance accepting.

Lemma truetype_run (file : string) (size : Z) (w : world) :
  truetype file size w =
  match truetype_fault file size with
  | Some e => (inl e, w)
  | None => (inr (TrueType file size), w)
  end.
Proof.
  unfold truetype, bind, fault. destruct (truetype_fault file size); reflexivity.
Qed.


End RendererFurther.

Section Reports.
Context {RT : Runtime} {OUT : Stream}.

(** X3: what [add_watermark] does is settled by how [render], the body of
    its [try], ends.  When [render] reaches its end, [add_watermark]
    returns in the world [render] left: the last line printed is the line
    that the output was saved, and the output path holds an image.  When
    [render] raises [e], the handler prints the line that processing the
    input went wrong, which ends with the message of [e], and
    [add_watermark] returns; when standard output refuses that line,
    [add_watermark] raises the exception of [print] to its caller. *)
Theorem add_watermark_reports (image_path output_path : string) (font_size : Z)
    (color position : string) (w : world) :
  match render image_path output_path font_size color position w with
  | (inr _, w1) =>
      add_watermark image_path output_path font_size color position w = (inr tt, w1) /\
      last (stdout w1) = Some ("已保存: " ++ output_path) /\
      exists saved, fs w1 !! output_path = Some (File (inr saved))
  | (inl e, w1) =>
      let line := "处理图片 " ++ image_path ++ " 时出错: " ++ msg e in
      match print_fault w1 line with
      | None =>
          add_watermark image_path output_path font_size color position w =
          (inr tt, logged line w1)
      | Some e' =>
          add_watermark image_path output_path font_size color position w = (inl e', w1)
      end
  end.
Proof.
  unfold add_watermark, try_except.
  destruct (render image_path output_path font_size color position w)
    as [[e | []] w1] eqn:Hrun.
  - cbv zeta. rewrite print_cases.
    destruct (print_fault w1 _); reflexivity.
  - split; [reflexivity |].
    apply render_inr in Hrun
      as (opened & working & text & w0 & font & w2 & bbox & saved & _ & _ & _ & _ & _ & Hrest).
    destruct (get_position _ _ _ _ _) as [x y].
    destruct Hrest as (_ & Hfs & Hout).
    split; [rewrite Hout; cbn [logged stdout]; apply last_snoc | eauto].
Qed.
End Reports.

Section ReportsRuns.
#[local] Existing Instance Sample.runtime.

(** On a strict standard output a picture whose name is not UTF-8 makes
    [add_watermark] raise: [render] raises on its last line, which shows
    the output path, and the line of the handler shows the input path. *)
Lemma add_watermark_can_raise :
  fst (add_watermark (OUT := Sample.strict) ("pics/" ++ Sample.odd_name)
         ("pics/out/" ++ Sample.odd_name) 36 "white" "center" Sample.odd) =
  inl (mkerror "UnicodeEncodeError"
         "'utf-8' codec can't encode character '\udcff' in position 11: surrogates not allowed").
Proof. vm_compute. reflexivity. Qed.
End ReportsRuns.

(** ** Batch Driver, continued *)

(** For the footer standard output takes every line. *)
Section BatchDriverFurther.
Context {RT : Runtime}.
#[local] Existing Instance accepting.

End BatchDriverFurther.

Section BatchDriverFurtherRuns.
#[local] Existing Instance Sample.runtime.
#[local] Existing Instance accepting.

End BatchDriverFurtherRuns.


(** ** Paths *)

Lemma app_cons (c : ascii) (a b : string) : String c a ++ b = String c (a ++ b).
Proof. reflexivity. Qed.

Lemma app_assoc_str (a b c : string) : (a ++ b) ++ c = a ++ (b ++ c).
Proof.
  induction a as [| x a IH]; [reflexivity |]. now rewrite !app_cons, IH.
Qed.

Lemma length_app_str (a b : string) :
  String.length (a ++ b) = (String.length a + String.length b)%nat.
Proof.
  induction a as [| x a IH]; [reflexivity |]. rewrite app_cons. cbn [String.length].
  now rewrite IH.
Qed.

Lemma is_empty_app (a b : string) : is_empty (a ++ b) = is_empty a && is_empty b.
Proof. destruct a; reflexivity. Qed.

Lemma is_empty_true (s : string) : is_empty s = true -> s = "".
Proof. destruct s; [reflexivity | discriminate]. Qed.

Lemma has_sep_app (a b : string) : has_sep (a ++ b) = has_sep a || has_sep b.
Proof.
  induction a as [| x a IH]; [reflexivity |]. rewrite app_cons. cbn [has_sep].
  now rewrite IH, orb_assoc.
Qed.

Lemma rsplit_sep_nosep (p : string) : has_sep p = false -> rsplit_sep p = ("", p).
Proof.
  induction p as [| c p IH]; [reflexivity |]. cbn [has_sep rsplit_sep].
  intros H. apply orb_false_iff in H as [Hc Hp]. rewrite (IH Hp). cbn [is_empty].
  now rewrite Hc.
Qed.

Lemma rsplit_sep_app (a b : string) :
  has_sep b = false ->
  rsplit_sep (a ++ b) = (fst (rsplit_sep a), snd (rsplit_sep a) ++ b).
Proof.
  intros Hb. induction a as [| c a IH].
  { change ("" ++ b) with b. now rewrite (rsplit_sep_nosep b Hb). }
  rewrite app_cons. cbn [rsplit_sep]. rewrite IH.
  destruct (rsplit_sep a) as [h t]. cbn [fst snd].
  destruct (is_empty h); [destruct (is_sep c) |]; reflexivity.
Qed.

Lemma rsplit_sep_snoc (s : string) : rsplit_sep (s ++ "/") = (s ++ "/", "").
Proof.
  induction s as [| c s IH]; [reflexivity |].
  rewrite app_cons. cbn [rsplit_sep]. rewrite IH.
  rewrite is_empty_app. cbn [is_empty]. now rewrite andb_false_r.
Qed.

Lemma basename_nosep (p : string) : has_sep (basename p) = false.
Proof.
  unfold basename. induction p as [| c p IH]; [reflexivity |].
  cbn [rsplit_sep]. destruct (rsplit_sep p) as [h t] eqn:Hp. cbn [snd] in IH.
  destruct (is_empty h) eqn:Hh; [| exact IH].
  apply is_empty_true in Hh. subst h.
  assert (Hno : has_sep p = false).
  { clear IH. revert t Hp. induction p as [| x p IHp]; [reflexivity |].
    cbn [rsplit_sep has_sep]. destruct (rsplit_sep p) as [h' t'].
    destruct (is_empty h') eqn:Hh'; [| intros t H; inversion H; subst; discriminate].
    destruct (is_sep x); [intros t H; inversion H |].
    intros t H. apply is_empty_true in Hh'. subst h'. now rewrite (IHp t'). }
  destruct (is_sep c) eqn:Hc; cbn [snd has_sep]; [exact Hno | now rewrite Hc, Hno].
Qed.

Lemma endswith_refl (s : string) : endswith s s = true.
Proof. destruct s; cbn [endswith]; now rewrite String.eqb_refl. Qed.

Lemma endswith_app (a b : string) : endswith (a ++ b) b = true.
Proof.
  induction a as [| c a IH]; [apply endswith_refl |].
  rewrite app_cons. cbn [endswith]. rewrite IH. apply orb_true_r.
Qed.

Lemma endswith_inv (s suffix : string) :
  endswith s suffix = true -> exists pre, s = pre ++ suffix.
Proof.
  induction s as [| c s IH]; cbn [endswith]; intros H.
  - apply orb_true_iff in H as [H | H]; [| discriminate].
    apply String.eqb_eq in H. subst. now exists "".
  - apply orb_true_iff in H as [H | H].
    + apply String.eqb_eq in H. subst. now exists "".
    + destruct (IH H) as [pre ->]. now exists (String c pre).
Qed.

Lemma last_char_app (a b : string) :
  is_empty b = false -> last_char (a ++ b) = last_char b.
Proof.
  intros Hb. induction a as [| c a IH]; [reflexivity |].
  rewrite app_cons. cbn [last_char].
  destruct (a ++ b) eqn:Hab; [| exact IH].
  assert (H : is_empty (a ++ b) = true) by now rewrite Hab.
  rewrite is_empty_app, Hb, andb_false_r in H. discriminate.
Qed.

Lemma endswith_last_char (s suffix : string) :
  is_empty suffix = false -> endswith s suffix = true ->
  last_char s = last_char suffix.
Proof.
  intros Hne H. apply endswith_inv in H as [pre ->]. now apply last_char_app.
Qed.

Lemma prefix_sep_nosep (b : string) : has_sep b = false -> String.prefix "/" b = false.
Proof.
  destruct b as [| c b]; [reflexivity |]. cbn [has_sep String.prefix].
  intros H. apply orb_false_iff in H as [Hc _].
  destruct (ascii_dec "/" c) as [<- | ?]; [discriminate | reflexivity].
Qed.

Lemma rstrip_sep_snoc (s : string) : rstrip_sep (s ++ "/") = rstrip_sep s.
Proof.
  induction s as [| c s IH]; [reflexivity |].
  rewrite app_cons. cbn [rstrip_sep]. now rewrite IH.
Qed.

Lemma rstrip_sep_length (s : string) :
  (String.length (rstrip_sep s) <= String.length s)%nat.
Proof.
  induction s as [| c s IH]; [reflexivity |]. cbn [rstrip_sep].
  destruct (is_empty (rstrip_sep s) && is_sep c); cbn [String.length]; lia.
Qed.

Lemma rstrip_sep_empty (s : string) : is_empty (rstrip_sep s) = all_sep s.
Proof.
  induction s as [| c s IH]; [reflexivity |]. cbn [rstrip_sep all_sep].
  rewrite <- IH. destruct (is_empty (rstrip_sep s)), (is_sep c); reflexivity.
Qed.

Lemma rstrip_sep_fixed (s : string) (c : ascii) :
  last_char s = Some c -> is_sep c = false -> rstrip_sep s = s.
Proof.
  induction s as [| x s IH]; [discriminate |]. cbn [last_char rstrip_sep].
  destruct s as [| y s].
  - intros H Hc. inversion H; subst. cbn. now rewrite Hc.
  - intros H Hc. rewrite (IH H Hc). reflexivity.
Qed.

Lemma all_sep_last_char (s : string) :
  all_sep s = true -> is_empty s = false -> last_char s = Some "/"%char.
Proof.
  induction s as [| x s IH]; [discriminate |]. cbn [all_sep last_char].
  intros H _. apply andb_true_iff in H as [Hx Hs].
  destruct s as [| y s].
  - unfold is_sep in Hx. apply Ascii.eqb_eq in Hx. now subst.
  - now apply IH.
Qed.

Lemma endswith_sep_last_char (s : string) :
  endswith s "/" = true <-> last_char s = Some "/"%char.
Proof.
  split.
  - intros H. now rewrite (endswith_last_char s "/").
  - induction s as [| x s IH]; [discriminate |]. cbn [last_char endswith].
    destruct s as [| y s].
    + intros H. inversion H. reflexivity.
    + intros H. rewrite (IH H). apply orb_true_r.
Qed.

Lemma join_nosep (a b : string) :
  has_sep b = false ->
  join a b = if is_empty a || endswith a "/" then a ++ b else a ++ "/" ++ b.
Proof. intros Hb. unfold join. now rewrite (prefix_sep_nosep b Hb). Qed.

Lemma rsplit_sep_join (p b : string) :
  is_empty p = false -> has_sep b = false ->
  rsplit_sep (join p b) = (if endswith p "/" then p else p ++ "/", b).
Proof.
  intros Hp Hb. rewrite (join_nosep p b Hb), Hp. cbn [orb].
  destruct (endswith p "/") eqn:He.
  - destruct (endswith_inv _ _ He) as [s ->].
    now rewrite (rsplit_sep_app _ b Hb), rsplit_sep_snoc.
  - rewrite <- app_assoc_str.
    now rewrite (rsplit_sep_app _ b Hb), rsplit_sep_snoc.
Qed.

Lemma all_sep_app (a b : string) : all_sep (a ++ b) = all_sep a && all_sep b.
Proof.
  induction a as [| c a IH]; [reflexivity |]. rewrite app_cons. cbn [all_sep].
  now rewrite IH, andb_assoc.
Qed.

Lemma split_join (p b : string) :
  is_empty p = false -> has_sep b = false -> split (join p b) = (stripped p, b).
Proof.
  intros Hp Hb. unfold split. rewrite (rsplit_sep_join p b Hp Hb). unfold stripped.
  destruct (endswith p "/") eqn:He.
  - rewrite Hp. cbn [negb andb]. destruct (all_sep p); reflexivity.
  - rewrite is_empty_app. cbn [is_empty]. rewrite andb_false_r. cbn [negb andb].
    rewrite all_sep_app. cbn [all_sep is_sep]. rewrite andb_true_r.
    destruct (all_sep p) eqn:Ha.
    + apply all_sep_last_char in Ha; [| exact Hp].
      apply endswith_sep_last_char in Ha. congruence.
    + cbn [negb]. rewrite rstrip_sep_snoc. reflexivity.
Qed.

Lemma stripped_not_empty (p : string) : is_empty p = false -> is_empty (stripped p) = false.
Proof.
  intros Hp. unfold stripped. destruct (all_sep p) eqn:Ha; [exact Hp |].
  now rewrite rstrip_sep_empty.
Qed.

Lemma stripped_length (p : string) :
  (String.length (stripped p) <= String.length p)%nat.
Proof.
  unfold stripped. destruct (all_sep p); [lia | apply rstrip_sep_length].
Qed.

Lemma has_magic_rstrip_sep (s : string) :
  has_magic s = false -> has_magic (rstrip_sep s) = false.
Proof.
  induction s as [| c s IH]; [reflexivity |]. cbn [has_magic rstrip_sep].
  intros H. apply orb_false_iff in H as [Hc Hs].
  destruct (is_empty (rstrip_sep s) && is_sep c); [reflexivity |].
  cbn [has_magic]. now rewrite Hc, (IH Hs).
Qed.

Lemma has_magic_stripped (p : string) :
  has_magic p = false -> has_magic (stripped p) = false.
Proof.
  intros H. unfold stripped. destruct (all_sep p); [exact H | now apply has_magic_rstrip_sep].
Qed.

(** ** Batch Driver: the output directory and the working set *)

Section Directories.
Context {RT : Runtime}.

Lemma input_dir_of_file (w : world) (p : string) (content : pyerror + image_file) :
  lookup_path w p = Some (File content) ->
  input_dir_of w p = if is_empty (dirname p) then "." else dirname p.
Proof.
  intros Hfile. unfold input_dir_of, resolve_inputs, isfile.
  unfold bind at 1 2. unfold get_world, ret at 1. now rewrite Hfile.
Qed.

Lemma resolve_inputs_directory (w : world) (p : string) :
  (forall content, lookup_path w p <> Some (File content)) ->
  input_dir_of w p = p /\
  collect p image_extensions w = (inr (working_set w p), w).
Proof.
  intros Hdir.
  assert (H : resolve_inputs p w =
              (let* image_files := collect p image_extensions in
               ret (image_files, p)) w).
  { unfold resolve_inputs, isfile. unfold bind at 1 2. unfold get_world, ret at 1.
    destruct (lookup_path w p) as [[names | content] |]; try reflexivity.
    now destruct (Hdir content). }
  unfold input_dir_of, working_set. rewrite H.
  destruct (collect_reads p image_extensions w) as [l Hl].
  unfold bind. rewrite Hl. unfold ret. cbn [fst]. auto.
Qed.

(** X6: how the output directory is named in three common calls.  For a
    file given by its bare name the images go to the hidden directory
    [./._watermark]; for a directory given with a slash at the end the
    output directory is called [_watermark]; for a directory given by its
    bare name [d] it is [d/d_watermark]. *)
Theorem output_directory_names (w : world) :
  (forall p content,
     lookup_path w p = Some (File content) -> has_sep p = false ->
     output_dir_of w p = "./._watermark" /\
     join (output_dir_of w p) (basename p) = "./._watermark/" ++ p) /\
  (forall s,
     (forall content, lookup_path w (s ++ "/") <> Some (File content)) ->
     output_dir_of w (s ++ "/") = s ++ "/_watermark") /\
  (forall d,
     (forall content, lookup_path w d <> Some (File content)) ->
     is_empty d = false -> has_sep d = false ->
     output_dir_of w d = d ++ "/" ++ d ++ "_watermark").
Proof.
  split; [| split].
  - intros p content Hfile Hp. unfold output_dir_of.
    rewrite (input_dir_of_file w p content Hfile).
    unfold dirname, split, basename. rewrite (rsplit_sep_nosep p Hp).
    cbn [is_empty negb andb fst snd].
    split; [reflexivity |].
    change (join "." (snd (rsplit_sep ".") ++ "_watermark")) with "./._watermark".
    rewrite (join_nosep _ p Hp). reflexivity.
  - intros s Hdir. unfold output_dir_of.
    destruct (resolve_inputs_directory w (s ++ "/") Hdir) as [-> _].
    unfold basename. rewrite rsplit_sep_snoc. cbn [snd].
    change ("" ++ "_watermark") with "_watermark".
    rewrite join_nosep by reflexivity.
    rewrite endswith_app, orb_true_r. apply app_assoc_str.
  - intros d Hdir Hne Hd. unfold output_dir_of.
    destruct (resolve_inputs_directory w d Hdir) as [-> _].
    unfold basename. rewrite (rsplit_sep_nosep d Hd). cbn [snd].
    rewrite join_nosep by (rewrite has_sep_app, Hd; reflexivity).
    rewrite Hne. cbn [orb].
    destruct (endswith d "/") eqn:He; [| reflexivity].
    destruct (endswith_inv _ _ He) as [pre ->].
    rewrite has_sep_app in Hd. cbn in Hd. rewrite orb_true_r in Hd. discriminate.
Qed.
End Directories.

Section DirectoriesRuns.
#[local] Existing Instance Sample.runtime.

Lemma output_directory_names_witness :
  join (output_dir_of Sample.loose "a.jpg") (basename "a.jpg") = "./._watermark/a.jpg" /\
  output_dir_of Sample.five "pics/" = "pics/_watermark" /\
  output_dir_of Sample.five "pics" = "pics/pics_watermark".
Proof.
  destruct (output_directory_names Sample.loose) as (Hfile & _ & _).
  destruct (output_directory_names Sample.five) as (_ & Hslash & Hbare).
  split; [| split].
  - eapply Hfile; vm_compute; reflexivity.
  - apply (Hslash "pics"). intros content. vm_compute. discriminate.
  - apply (Hbare "pics"); [intros content; vm_compute; discriminate | reflexivity ..].
Defined.
End DirectoriesRuns.

Section WorkingSet.
Context {RT : Runtime}.

Lemma glob_literal (p pat : string) (w : world) :
  is_empty p = false -> has_magic p = false -> has_sep pat = false ->
  glob (join p pat) w = (inr (map (join (stripped p)) (glob1 w (stripped p) pat)), w).
Proof.
  intros Hp Hm Hpat. unfold glob. unfold bind, get_world, ret.
  rewrite (split_join p pat Hp Hpat), (has_magic_stripped p Hm).
  cbn [flat_map]. now rewrite app_nil_r.
Qed.

Lemma In_glob1 (w : world) (d pat name : string) :
  In name (glob1 w d pat) <->
  In name (listing w d) /\ ishidden name = false /\ fnmatch name pat = true.
Proof.
  unfold glob1, listing. rewrite !filter_In, negb_true_iff. tauto.
Qed.

Lemma collect_literal (p : string) (exts : list string) (w : world) :
  is_empty p = false -> has_magic p = false ->
  Forall (fun ext => has_sep ext = false /\ has_sep (upper ext) = false) exts ->
  collect p exts w =
  (inr (flat_map
          (fun ext =>
             map (join (stripped p)) (glob1 w (stripped p) ext) ++
             map (join (stripped p)) (glob1 w (stripped p) (upper ext)))%list
          exts), w).
Proof.
  intros Hp Hm Hexts. induction Hexts as [| ext rest [Hext Hupper] _ IH]; [reflexivity |].
  cbn [collect flat_map]. unfold bind.
  rewrite (glob_literal p ext w Hp Hm Hext), (glob_literal p (upper ext) w Hp Hm Hupper), IH.
  unfold ret. now rewrite app_assoc.
Qed.

Ltac find_disjunct name :=
  first [ solve [exists name; repeat split; assumption]
        | left; find_disjunct name
        | right; find_disjunct name ].

(** What directory mode collects. *)
Lemma working_set_directory (w : world) (p : string) :
  is_empty p = false -> has_magic p = false ->
  (forall content, lookup_path w p <> Some (File content)) ->
  working_set w p =
  flat_map
    (fun ext =>
       map (join (stripped p)) (glob1 w (stripped p) ext) ++
       map (join (stripped p)) (glob1 w (stripped p) (upper ext)))%list
    image_extensions.
Proof.
  intros Hp Hm Hdir.
  destruct (resolve_inputs_directory w p Hdir) as [_ Hcollect].
  rewrite (collect_literal p image_extensions w Hp Hm) in Hcollect
    by (unfold image_extensions; repeat constructor).
  injection Hcollect as Hset. now rewrite <- Hset.
Qed.

Lemma working_set_directory_join (w : world) (p g : string) :
  is_empty p = false -> has_magic p = false ->
  (forall content, lookup_path w p <> Some (File content)) ->
  In g (working_set w p) ->
  exists name, g = join (stripped p) name /\ In name (listing w (stripped p)).
Proof.
  intros Hp Hm Hdir Hg. rewrite (working_set_directory w p Hp Hm Hdir) in Hg.
  apply in_flat_map in Hg as (ext & _ & Hg).
  apply in_app_iff in Hg as [Hg | Hg];
    apply in_map_iff in Hg as (name & <- & Hname);
    apply In_glob1 in Hname as (Hname & _); eauto.
Qed.

(** X7: for a directory given without [*], [?] or [[] in its name, a path
    is in the working set exactly when it is the directory joined with a
    name that the directory lists, that does not start with a dot, and that
    ends, letter case included, in one of the twelve endings: the six
    extensions in lower case and in upper case.  Hidden files and names
    with an extension in mixed case are left out. *)
Theorem directory_working_set (w : world) (p path : string) :
  is_empty p = false -> has_magic p = false ->
  (forall content, lookup_path w p <> Some (File content)) ->
  In path (working_set w p) <->
  exists name,
    path = join (stripped p) name /\
    In name (listing w (stripped p)) /\
    ishidden name = false /\
    exists suffix, In suffix image_suffixes /\ endswith name suffix = true.
Proof.
  intros Hp Hm Hdir. rewrite (working_set_directory w p Hp Hm Hdir).
  unfold image_extensions. lazy beta iota zeta delta [flat_map].
  repeat match goal with
         | |- context [upper_char ?c] =>
             let u := eval vm_compute in (upper_char c) in
             change (upper_char c) with u
         end.
  rewrite !in_app_iff, !in_map_iff.
  setoid_rewrite In_glob1.
  unfold image_suffixes. cbn [In fnmatch].
  split.
  - intros H.
    repeat (destruct H as [H | H]);
      try (destruct H as (name & <- & Hin & Hhid & Hend);
           exists name; repeat split; try assumption; eexists; split; [| exact Hend]; tauto).
    destruct H.
  - intros (name & -> & Hin & Hhid & suffix & Hsuf & Hend).
    repeat (destruct Hsuf as [<- | Hsuf]; [find_disjunct name |]).
    destruct Hsuf.
Qed.
End WorkingSet.

Section WorkingSetRuns.
#[local] Existing Instance Sample.runtime.

Lemma directory_working_set_witness :
  In "album/a.jpg" (working_set Sample.album "album").
Proof.
  apply (directory_working_set Sample.album "album" "album/a.jpg");
    [reflexivity | reflexivity | intros content; vm_compute; discriminate |].
  exists "a.jpg". split; [reflexivity |]. split; [vm_compute; tauto |].
  split; [reflexivity |]. exists ".jpg". split; [vm_compute; tauto | reflexivity].
Defined.
End WorkingSetRuns.

(** ** Where the outputs go *)

Lemma join_length (a b : string) :
  has_sep b = false ->
  (String.length a + String.length b <= String.length (join a b))%nat.
Proof.
  intros Hb. rewrite (join_nosep a b Hb).
  destruct (is_empty a || endswith a "/"); rewrite !length_app_str; cbn [String.length]; lia.
Qed.

Lemma dirname_join (a b : string) :
  is_empty a = false -> has_sep b = false -> dirname (join a b) = stripped a.
Proof. intros Ha Hb. unfold dirname. now rewrite (split_join a b Ha Hb). Qed.

Lemma last_char_join (a b : string) :
  has_sep b = false -> is_empty b = false -> last_char (join a b) = last_char b.
Proof.
  intros Hb Hne. rewrite (join_nosep a b Hb).
  destruct (is_empty a || endswith a "/").
  - now apply last_char_app.
  - rewrite <- app_assoc_str. now apply last_char_app.
Qed.

Lemma length_not_empty (s : string) : (0 < String.length s)%nat -> is_empty s = false.
Proof. destruct s; cbn; [lia | reflexivity]. Qed.

Section OutputDirectory.
Variable input_dir : string.

Lemma watermark_name_nosep : has_sep (basename input_dir ++ "_watermark") = false.
Proof. now rewrite has_sep_app, basename_nosep. Qed.

Lemma output_dir_length :
  (String.length input_dir + 10 <=
   String.length (join input_dir (basename input_dir ++ "_watermark")))%nat.
Proof.
  pose proof (join_length input_dir _ watermark_name_nosep) as H.
  rewrite length_app_str in H. cbn [String.length] in H. lia.
Qed.

Lemma output_dir_not_empty :
  is_empty (join input_dir (basename input_dir ++ "_watermark")) = false.
Proof. apply length_not_empty. pose proof output_dir_length. lia. Qed.

Lemma output_dir_stripped :
  stripped (join input_dir (basename input_dir ++ "_watermark")) =
  join input_dir (basename input_dir ++ "_watermark").
Proof.
  assert (Hlast : last_char (join input_dir (basename input_dir ++ "_watermark")) =
                  Some "k"%char).
  { rewrite last_char_join.
    - now rewrite last_char_app.
    - apply watermark_name_nosep.
    - rewrite is_empty_app. cbn [is_empty]. apply andb_false_r. }
  unfold stripped.
  destruct (all_sep (join input_dir (basename input_dir ++ "_watermark"))) eqn:Ha;
    [reflexivity |].
  now apply (rstrip_sep_fixed _ "k"%char).
Qed.

(** Where an image goes lies directly in the output directory. *)
Lemma output_path_dirname (image_path : string) :
  dirname (join (join input_dir (basename input_dir ++ "_watermark"))
             (basename image_path)) =
  join input_dir (basename input_dir ++ "_watermark").
Proof.
  rewrite dirname_join; [apply output_dir_stripped | apply output_dir_not_empty |].
  apply basename_nosep.
Qed.
End OutputDirectory.

Section OutputPaths.
Context {RT : Runtime}.

Lemma working_set_file (w : world) (p : string) (content : pyerror + image_file) :
  lookup_path w p = Some (File content) -> working_set w p = [p].
Proof.
  intros Hfile. unfold working_set, resolve_inputs, isfile.
  unfold bind at 1 2. unfold get_world, ret at 1. now rewrite Hfile.
Qed.

Lemma lookup_path_not_empty (w : world) (p : string) (n : node) :
  lookup_path w p = Some n -> is_empty p = false /\ fs w !! p = Some n.
Proof. unfold lookup_path. destruct (is_empty p); [discriminate | auto]. Qed.

(** No input is the place where an input is written to. *)
Lemma input_is_no_output_path (w : world) (p f g : string) :
  is_Some (lookup_path w p) ->
  (exists c, lookup_path w p = Some (File c)) \/
  has_magic p = false /\
  (forall name, In name (listing w (stripped p)) -> has_sep name = false) ->
  In g (working_set w p) ->
  g <> join (output_dir_of w p) (basename f).
Proof.
  intros [n Hn] Hmode Hg Heq.
  apply (f_equal dirname) in Heq. unfold output_dir_of in Heq.
  rewrite output_path_dirname in Heq.
  pose proof (output_dir_length (input_dir_of w p)) as Hlen.
  pose proof (output_dir_not_empty (input_dir_of w p)) as Hne.
  rewrite <- Heq in Hlen, Hne. clear Heq.
  destruct Hmode as [[c Hfile] | [Hmagic Hnames]].
  - rewrite (working_set_file w p c Hfile) in Hg. destruct Hg as [<- | []].
    rewrite (input_dir_of_file w p c Hfile), Hne in Hlen. lia.
  - destruct (lookup_path_not_empty w p n Hn) as [Hp _].
    assert (Hdir : forall c, lookup_path w p <> Some (File c)).
    { intros c Hc. destruct n as [names | c'].
      - congruence.
      - rewrite (working_set_file w p c' Hn) in Hg. destruct Hg as [<- | []].
        rewrite (input_dir_of_file w p c' Hn), Hne in Hlen. lia. }
    destruct (resolve_inputs_directory w p Hdir) as [Hin _]. rewrite Hin in Hlen.
    apply (working_set_directory_join w p g Hp Hmagic Hdir) in Hg
      as (name & -> & Hname).
    rewrite dirname_join in Hlen
      by (auto using stripped_not_empty).
    pose proof (stripped_length (stripped p)). pose proof (stripped_length p). lia.
Qed.

(** X8: the outputs go to other paths than the inputs.  Whether the path
    is a file, or a directory without [*], [?] or [[] in its name whose
    entries have no [/] in theirs, the path an image of the working set is
    written to lies directly in the output directory and is, as a string,
    none of the paths of the working set.  (This compares path strings;
    which files the paths name is up to the file system.) *)
Theorem output_paths_are_no_inputs (w : world) (p f g : string) :
  is_Some (lookup_path w p) ->
  (exists c, lookup_path w p = Some (File c)) \/
  has_magic p = false /\
  (forall name, In name (listing w (stripped p)) -> has_sep name = false) ->
  In f (working_set w p) ->
  In g (working_set w p) ->
  let output_path := join (output_dir_of w p) (basename f) in
  dirname output_path = output_dir_of w p /\
  output_path <> g.
Proof.
  intros Hp Hmode Hf Hg output_path.
  split; [apply output_path_dirname |].
  intros Heq. now apply (input_is_no_output_path w p f g Hp Hmode Hg).
Qed.
End OutputPaths.

Section OutputPathsRuns.
#[local] Existing Instance Sample.runtime.

Lemma output_paths_are_no_inputs_witness :
  dirname (join (output_dir_of Sample.five "pics") (basename "pics/a.jpg")) =
    "pics/pics_watermark" /\
  join (output_dir_of Sample.five "pics") (basename "pics/a.jpg") <> "pics/b.jpg".
Proof.
  refine (output_paths_are_no_inputs Sample.five "pics" "pics/a.jpg" "pics/b.jpg"
            _ _ _ _).
  - vm_compute. eauto.
  - right. split; [reflexivity |]. intros name Hin. vm_compute in Hin.
    repeat (destruct Hin as [<- | Hin]; [reflexivity |]). destruct Hin.
  - vm_compute. tauto.
  - vm_compute. tauto.
Defined.
End OutputPathsRuns.


(** ** Reading a standard timestamp *)

Lemma pbind_first {A B} (p : parser A) (f : A -> parser B) (s s' : string)
    (a : A) (b : B * string) :
  (exists l, p s = (a, s') :: l) -> (exists l, f a s' = b :: l) ->
  exists l, pbind p f s = b :: l.
Proof.
  intros [l Hp] [l' Hf]. unfold pbind. rewrite Hp. cbn [flat_map fst snd].
  rewrite Hf. eexists. reflexivity.
Qed.

Lemma lit_first (c : ascii) (rest : string) :
  exists l, lit c (String c rest) = (tt, rest) :: l.
Proof. unfold lit. rewrite Ascii.eqb_refl. eexists. reflexivity. Qed.

Tactic Notation "by_cases_below" ident(n) integer(k) :=
  do k (destruct n as [| n]; [intros; vm_compute; eexists; reflexivity |]); lia.

Lemma two_digits_first (v : Z) (rest : string) :
  0 <= v <= 99 -> exists l, dig2 0 9 0 9 (fixed 2 v ++ rest) = (v, rest) :: l.
Proof.
  intros Hv. replace v with (Z.of_nat (Z.to_nat v)) by lia.
  assert (Hn : (Z.to_nat v < 100)%nat) by lia. revert Hn rest.
  generalize (Z.to_nat v) as n. intros n Hn. by_cases_below n 100.
Qed.

Tactic Notation "enumerate" constr(v) "from" constr(lo) "to" constr(hi)
    "count" integer(k) :=
  replace v with (lo + Z.of_nat (Z.to_nat (v - lo))) by lia;
  let n := fresh "n" in
  let Hn := fresh "Hn" in
  assert (Hn : (Z.to_nat (v - lo) <= Z.to_nat (hi - lo))%nat) by lia;
  revert Hn; generalize (Z.to_nat (v - lo)) as n; intros n Hn;
  do k (destruct n as [| n]; [intros; vm_compute; eexists; reflexivity |]); lia.

Lemma re_m_first (v : Z) (rest : string) :
  1 <= v <= 12 -> exists l, re_m (fixed 2 v ++ rest) = (v, rest) :: l.
Proof. intros Hv. revert rest. enumerate v from 1 to 12 count 12. Qed.

Lemma re_d_first (v : Z) (rest : string) :
  1 <= v <= 31 -> exists l, re_d (fixed 2 v ++ rest) = (v, rest) :: l.
Proof. intros Hv. revert rest. enumerate v from 1 to 31 count 31. Qed.

Lemma re_H_first (v : Z) (rest : string) :
  0 <= v <= 23 -> exists l, re_H (fixed 2 v ++ rest) = (v, rest) :: l.
Proof. intros Hv. revert rest. enumerate v from 0 to 23 count 24. Qed.

Lemma re_M_first (v : Z) (rest : string) :
  0 <= v <= 59 -> exists l, re_M (fixed 2 v ++ rest) = (v, rest) :: l.
Proof. intros Hv. revert rest. enumerate v from 0 to 59 count 60. Qed.

Lemma re_S_first (v : Z) (rest : string) :
  0 <= v <= 59 -> exists l, re_S (fixed 2 v ++ rest) = (v, rest) :: l.
Proof. intros Hv. revert rest. enumerate v from 0 to 59 count 60. Qed.

Lemma spaces_first (v : Z) (rest : string) :
  0 <= v <= 23 ->
  exists l, spaces (String " " (fixed 2 v ++ rest)) = (tt, fixed 2 v ++ rest) :: l.
Proof. intros Hv. revert rest. enumerate v from 0 to 23 count 24. Qed.

Lemma fixed_four (y : Z) :
  0 <= y <= 9999 -> fixed 4 y = fixed 2 (y / 100) ++ fixed 2 (y mod 100).
Proof.
  intros Hy. apply String.eqb_eq.
  apply (forallb_between
           (fun z => String.eqb (fixed 4 z) (fixed 2 (z / 100) ++ fixed 2 (z mod 100)))
           0 10000); [vm_compute; reflexivity | lia].
Qed.

Lemma re_Y_first (y : Z) (rest : string) :
  0 <= y <= 9999 -> exists l, re_Y (fixed 4 y ++ rest) = (y, rest) :: l.
Proof.
  intros Hy. rewrite (fixed_four y Hy), app_assoc_str.
  assert (Hdiv : 0 <= y / 100 <= 99).
  { assert (y / 100 < 100) by (apply Z.div_lt_upper_bound; lia).
    split; [apply Z.div_pos; lia | lia]. }
  pose proof (Z.mod_pos_bound y 100 ltac:(lia)) as Hmod.
  assert (Hsum : 100 * (y / 100) + y mod 100 = y) by (symmetry; apply Z.div_mod; lia).
  cut (exists l, re_Y (fixed 2 (y / 100) ++ fixed 2 (y mod 100) ++ rest) =
                 (100 * (y / 100) + y mod 100, rest) :: l).
  { intros [l Hl]. exists l. now rewrite Hl, Hsum. }
  unfold re_Y. eapply pbind_first; [apply two_digits_first; lia |].
  eapply pbind_first; [apply two_digits_first; lia |].
  eexists. reflexivity.
Qed.

Lemma format_regex_first (dt : datetime) :
  valid_datetime dt -> exists l, format_regex (exif_timestamp dt) = (dt, "") :: l.
Proof.
  destruct dt as [Y m d H M S]. unfold valid_datetime, exif_timestamp.
  cbn [year month day hour minute second].
  intros (HY & Hm & Hd & HH & HM & HS).
  assert (Hd' : 1 <= d <= 31).
  { split; [lia |]. unfold days_in_month in Hd.
    destruct (m =? 2)%Z; [destruct (is_leap Y) |]; [lia | lia |].
    destruct (_ || _); lia. }
  unfold format_regex.
  eapply pbind_first; [apply re_Y_first; lia |].
  eapply pbind_first; [apply lit_first |].
  eapply pbind_first; [apply re_m_first; lia |].
  eapply pbind_first; [apply lit_first |].
  eapply pbind_first; [apply re_d_first; lia |].
  eapply pbind_first; [apply spaces_first; lia |].
  eapply pbind_first; [apply re_H_first; lia |].
  eapply pbind_first; [apply lit_first |].
  eapply pbind_first; [apply re_M_first; lia |].
  eapply pbind_first; [apply lit_first |].
  eapply pbind_first.
  { rewrite <- (append_empty_r (fixed 2 S)). apply re_S_first. lia. }
  eexists. reflexivity.
Qed.

Lemma strptime_timestamp (quote : string -> string) (dt : datetime) :
  valid_datetime dt -> strptime quote (exif_timestamp dt) = inr dt.
Proof.
  intros Hv. destruct (format_regex_first dt Hv) as [l Hl].
  unfold strptime. rewrite Hl. cbn [is_empty negb].
  destruct Hv as (HY & Hm & Hd & HH & HM & HS).
  rewrite (proj2 (Z.eqb_neq _ _)) by lia.
  rewrite (proj2 (Z.ltb_ge _ _)) by lia.
  rewrite (proj2 (Z.ltb_ge _ _)) by lia.
  reflexivity.
Qed.

Section StandardTimestamp.
Context {RT : Runtime} {OUT : Stream}.

(** X9: the date survives the way through the metadata.  When the first
    non-empty value under the capture-date tag is the EXIF text
    [YYYY:MM:DD HH:MM:SS] of a date of the calendar and a time of the day,
    the reader returns that year, month and day, joined by backslashes,
    prints nothing and changes nothing. *)
Theorem standard_timestamp_is_read (w : world) (image_path : string)
    (opened : image_file) (items : list (Z * exif_value)) (dt : datetime) :
  lookup_path w image_path = Some (File (inr opened)) ->
  exif opened = ExifDict items ->
  capture_value items = Some (EStr (exif_timestamp dt)) ->
  valid_datetime dt ->
  get_exif_datetime image_path w =
  (inr (Some (str_int (year dt) ++ "\" ++ str_int (month dt) ++ "\" ++ str_int (day dt))),
   w).
Proof.
  intros Hopen Hexif Hvalue Hvalid.
  rewrite get_exif_datetime_cases. unfold reading_of, Image_open.
  unfold bind, get_world. rewrite Hopen. cbn [lift ret fst]. rewrite Hexif, Hvalue.
  cbn [strptime_value]. now rewrite (strptime_timestamp repr dt Hvalid).
Qed.
End StandardTimestamp.

Section StandardTimestampRuns.
#[local] Existing Instance Sample.runtime.
#[local] Existing Instance accepting.

Lemma standard_timestamp_is_read_witness :
  get_exif_datetime "pics/a.jpg" Sample.five = (inr (Some "2023\10\15"), Sample.five).
Proof.
  refine (standard_timestamp_is_read Sample.five "pics/a.jpg" _ _
            (mkdatetime 2023 10 15 12 30 45) _ _ _ _).
  - vm_compute. reflexivity.
  - reflexivity.
  - vm_compute. reflexivity.
  - vm_compute. repeat split; discriminate.
Defined.
End StandardTimestampRuns.


(** ** The watermark text, continued *)

Section WatermarkTextFurther.
Context {RT : Runtime} {OUT : Stream}.

End WatermarkTextFurther.

Section WatermarkTextFurtherRuns.
#[local] Existing Instance Sample.runtime.

End WatermarkTextFurtherRuns.
